(** * A shallow embedding of [src/app/server.js]

    The file models the [TimeSeriesCache] class (a JavaScript [Map] from
    string keys to [{ data, timestamp }] entries, a TTL check against
    [Date.now()], a cache-aside [fetchData] and the timer-driven refresh
    pass) together with the cache key built by the [/timeseries] route.

    Conventions.
    - JavaScript values are the inductive [jsval]; only what the code looks
      at (truthiness) is interpreted.
    - A [Map] is an association list in insertion order, as [Map.entries()]
      enumerates it.
    - Effects are threaded through a state-and-exception monad [M] over
      [World]: the [Map] held in [this.cache], the clock read by
      [Date.now()], the lines written by [console.log], and the list of
      upstream fetches that were started.
    - An asynchronous loader is a function from the time of the call to
      its outcome and the time at which its promise settles. *)

From Stdlib Require Import ZArith List String Ascii Bool Lia DecimalString.
Import ListNotations.
Open Scope string_scope.
Open Scope list_scope.
Open Scope Z_scope.

(** ** JavaScript values and errors *)

#[local] Unset Elimination Schemes.
Inductive jsval : Type :=
| JUndefined
| JNull
| JBool (b : bool)
| JNum (n : Z)          (* a number with an integral value *)
| JNaN
| JStr (s : string)
| JArray (items : list jsval)
| JObject (props : list (string * jsval)).
#[local] Set Elimination Schemes.

(** ToBoolean: what [if (cachedData)] tests. *)
Definition truthy (v : jsval) : bool :=
  match v with
  | JUndefined | JNull | JNaN => false
  | JBool b => b
  | JNum n => negb (n =? 0)
  | JStr s => match s with EmptyString => false | String _ _ => true end
  | JArray _ | JObject _ => true
  end.

Inductive jserror : Type :=
| TypeError (msg : string)
| Error (msg : string).

(** ** [Map]: insertion-ordered association list *)

Module JsMap.
Section WithValues.
Context {V : Type}.

Definition t := list (string * V).

Definition empty : t := [].

(** [Map.prototype.get]; [None] stands for [undefined]. *)
Fixpoint get (key : string) (m : t) : option V :=
  match m with
  | [] => None
  | (k, v) :: rest => if String.eqb key k then Some v else get key rest
  end.

(** [Map.prototype.set]: a present key keeps its position, a new key is
    appended. *)
Fixpoint set (key : string) (v : V) (m : t) : t :=
  match m with
  | [] => [(key, v)]
  | (k, v') :: rest =>
      if String.eqb key k then (k, v) :: rest else (k, v') :: set key v rest
  end.

(** [Map.prototype.delete]. *)
Fixpoint delete (key : string) (m : t) : t :=
  match m with
  | [] => []
  | (k, v) :: rest =>
      if String.eqb key k then delete key rest else (k, v) :: delete key rest
  end.

(** [Map.prototype.entries], in insertion order. *)
Definition entries (m : t) : list (string * V) := m.

Definition keys (m : t) : list string := map fst m.
End WithValues.
Arguments t : clear implicits.
End JsMap.

(** ** The world the methods run in *)

Record Entry : Type := mkEntry { data : jsval; timestamp : Z }.

Record World : Type := mkWorld {
  cache : JsMap.t Entry;     (* the Map held in this.cache *)
  now : Z;                   (* what Date.now() returns *)
  console : list string;     (* lines written by console.log, oldest first *)
  upstream : list string     (* keys for which a fetch was started, oldest first *)
}.

Definition with_cache (c : JsMap.t Entry) (w : World) : World :=
  mkWorld c (now w) (console w) (upstream w).
Definition with_now (t : Z) (w : World) : World :=
  mkWorld (cache w) t (console w) (upstream w).
Definition with_console (l : list string) (w : World) : World :=
  mkWorld (cache w) (now w) l (upstream w).
Definition with_upstream (u : list string) (w : World) : World :=
  mkWorld (cache w) (now w) (console w) u.

(** ** State and exception monad *)

Inductive Res (A : Type) : Type :=
| Returned (a : A)
| Threw (e : jserror).
Arguments Returned {A} a.
Arguments Threw {A} e.

Definition M (A : Type) : Type := World -> Res A * World.

Definition ret {A} (a : A) : M A := fun w => (Returned a, w).

Definition throw {A} (e : jserror) : M A := fun w => (Threw e, w).

Definition bind {A B} (m : M A) (k : A -> M B) : M B :=
  fun w =>
    match m w with
    | (Returned a, w') => k a w'
    | (Threw e, w') => (Threw e, w')
    end.

Declare Scope js_scope.
Delimit Scope js_scope with js.
Notation "x <- m ;; k" := (bind m (fun x => k))
  (at level 61, m at next level, right associativity) : js_scope.
Notation "m ;; k" := (bind m (fun _ => k))
  (at level 61, right associativity) : js_scope.
Open Scope js_scope.

(** [Date.now()] *)
Definition Date_now : M Z := fun w => (Returned (now w), w).

(** [console.log(text, key)]: the arguments are printed separated by a
    space. *)
Definition log_line (text key : string) : string :=
  String.append text (String.append " " key).

Definition console_log (text key : string) : M unit :=
  fun w => (Returned tt, with_console (console w ++ [log_line text key]) w).

Definition cache_get (key : string) : M (option Entry) :=
  fun w => (Returned (JsMap.get key (cache w)), w).
Definition cache_set (key : string) (e : Entry) : M unit :=
  fun w => (Returned tt, with_cache (JsMap.set key e (cache w)) w).
Definition cache_delete (key : string) : M unit :=
  fun w => (Returned tt, with_cache (JsMap.delete key (cache w)) w).
Definition cache_entries : M (list (string * Entry)) :=
  fun w => (Returned (JsMap.entries (cache w)), w).

(** An asynchronous function seen from its caller: called at some time, it
    settles at a later reading of the clock, fulfilled with a value or
    rejected with an error. *)
Definition Loader : Type := Z -> Res jsval * Z.

(** Starting the upstream call for [key]. *)
Definition invoke (key : string) : M unit :=
  fun w => (Returned tt, with_upstream (upstream w ++ [key]) w).

(** The promise settling at time [t] with outcome [r]. *)
Definition settle (r : Res jsval) (t : Z) : M jsval :=
  fun w => (r, with_now t w).

(** [await loader()] when nothing else runs in between. *)
Definition await (key : string) (loader : Loader) : M jsval :=
  invoke key ;;
  t0 <- Date_now ;;
  settle (fst (loader t0)) (snd (loader t0)).

(** ** class TimeSeriesCache *)

(** The part of [this] that no method assigns after construction.  Line 49
    reads [this.fetchFunction]; neither the constructor nor the class body
    defines that property, so it is present only if somebody assigns it to
    the object from outside, and [None] (undefined) otherwise. *)
Record TimeSeriesCache : Type := mkTimeSeriesCache {
  expirationDuration : Z;
  refreshInterval : Z;
  fetchFunction : option (string -> Loader)
}.

(** [constructor(expirationDuration = 600000, refreshInterval = 60000)] *)
Definition constructor (expirationDuration refreshInterval : option Z)
  : TimeSeriesCache :=
  mkTimeSeriesCache
    (match expirationDuration with Some d => d | None => 600000 end)
    (match refreshInterval with Some d => d | None => 60000 end)
    None.

(** The world right after [new TimeSeriesCache(...)] at time [t]. *)
Definition initial_world (t : Z) : World := mkWorld JsMap.empty t [] [].

(** What [setInterval] is given. *)
Record Timer : Type := mkTimer { callback : M unit; delay : Z }.

Section Methods.
Variable this : TimeSeriesCache.

(** [isExpired(entry)], lines 13-15. *)
Definition isExpired (entry : Entry) : M bool :=
  t <- Date_now ;;
  ret (t - timestamp entry >? expirationDuration this).

(** [set(key, data)], lines 17-19. *)
Definition set (key : string) (data : jsval) : M unit :=
  t <- Date_now ;;
  cache_set key (mkEntry data t).

(** [get(key)], lines 21-28.  [entry && !this.isExpired(entry)] does not
    read the clock when the key is missing. *)
Definition get (key : string) : M jsval :=
  entry <- cache_get key ;;
  match entry with
  | Some e =>
      expired <- isExpired e ;;
      if negb expired then ret (data e)
      else (cache_delete key ;; ret JNull)
  | None => cache_delete key ;; ret JNull
  end.

(** [async fetchData(key, fetchFunction)], lines 30-42. *)
Definition fetchData (key : string) (loader : Loader) : M jsval :=
  cachedData <- get key ;;
  if truthy cachedData then
    console_log "Cache hit for" key ;;
    ret cachedData
  else
    console_log "Cache miss for" key ;;
    newData <- await key loader ;;
    set key newData ;;
    ret newData.

(** [await this.fetchFunction(key)], line 49: calling [undefined] throws
    a TypeError before anything is fetched. *)
Definition call_fetchFunction (key : string) : M jsval :=
  match fetchFunction this with
  | None => throw (TypeError "this.fetchFunction is not a function")
  | Some f => await key (f key)
  end.

(** The [for ... of this.cache.entries()] loop, lines 46-52.  During one
    pass only [this.set(key, ...)] on the key being visited writes to the
    Map, which keeps every key in place, so the loop sees the entries it
    would see in the list taken at its start. *)
Fixpoint refresh_entries (entries : list (string * Entry)) : M unit :=
  match entries with
  | [] => ret tt
  | (key, entry) :: rest =>
      expired <- isExpired entry ;;
      (if negb expired then
         console_log "Refreshing cache for" key ;;
         refreshedData <- call_fetchFunction key ;;
         set key refreshedData
       else ret tt) ;;
      refresh_entries rest
  end.

(** The callback given to [setInterval], lines 45-53. *)
Definition refresh_pass : M unit :=
  entries <- cache_entries ;;
  refresh_entries entries.

(** [startAutoRefresh()], lines 44-54: [setInterval(callback, delay)]
    registers the callback with its delay. *)
Definition startAutoRefresh : Timer :=
  mkTimer refresh_pass (refreshInterval this).

(** One firing of the timer at clock reading [t]: the promise returned by
    the callback is dropped by [setInterval]. *)
Definition timer_fires (t : Z) (w : World) : World :=
  snd (callback startAutoRefresh (with_now t w)).
End Methods.

(** What becomes of the process once the promise of the timer callback has
    settled.  [setInterval] drops that promise and nothing in the file
    handles an unhandled rejection, so a rejected callback ends the process,
    as Node does by default since version 15. *)
Inductive Process : Type :=
| Running (w : World)
| Exited (reason : jserror).

Definition timer_outcome (this : TimeSeriesCache) (t : Z) (w : World) : Process :=
  match callback (startAutoRefresh this) (with_now t w) with
  | (Returned _, w') => Running w'
  | (Threw reason, _) => Exited reason
  end.

(** Running a method at a given reading of the clock. *)
Definition at_time {A} (t : Z) (m : M A) : M A := fun w => m (with_now t w).

(** A caller reading the same key once at each of the given clock readings,
    with no other operation in between. *)
Fixpoint repeated_get (this : TimeSeriesCache) (key : string) (times : list Z)
  : M (list jsval) :=
  match times with
  | [] => ret []
  | t :: later =>
      v <- at_time t (get this key) ;;
      vs <- repeated_get this key later ;;
      ret (v :: vs)
  end.

(** ** The cache key of the [/timeseries] route, line 104 *)

Definition cacheKey (symbol period start end_ : string) : string :=
  String.append symbol (String.append "-" (String.append period
    (String.append "-" (String.append start (String.append "-" end_))))).

(** ** Predicates used in the statements *)

Section Validity.
Variable this : TimeSeriesCache.

(** The entry for [e] has not outlived the TTL at clock reading [t]. *)
Definition fresh (t : Z) (e : Entry) : Prop :=
  t - timestamp e <= expirationDuration this.

(** The key has no entry, or one that has outlived the TTL. *)
Definition absent_or_expired (k : string) (w : World) : Prop :=
  JsMap.get k (cache w) = None
  \/ exists e, JsMap.get k (cache w) = Some e /\ ~ fresh (now w) e.

(** The clock a fetch settles at is not earlier than the one it was called
    at. *)
Definition fetches_take_time : Prop :=
  match fetchFunction this with
  | Some f => forall key t, t <= snd (f key t)
  | None => True
  end.
End Validity.

(** Lines 99-104: a request lacking a parameter, or giving an empty one, is
    answered with status 400 before any key is built. *)
Definition nonempty (p : option string) : bool :=
  match p with
  | Some (String _ _) => true
  | _ => false
  end.

Definition request_key (symbol period start end_ : option string) : option string :=
  if negb (nonempty symbol) || negb (nonempty period)
     || negb (nonempty start) || negb (nonempty end_)
  then None
  else
    match symbol, period, start, end_ with
    | Some s, Some p, Some a, Some b => Some (cacheKey s p a b)
    | _, _, _, _ => None
    end.

(** ** [fetchData] across its [await], and the event loop *)

Section EventLoopModel.
Variable this : TimeSeriesCache.

(** [fetchData] up to the point where it suspends at [await]: lines 31-39
    up to and including the call [fetchFunction()].  [Some v] is an early
    return with [v]. *)
Definition fetchData_begin (key : string) : M (option jsval) :=
  cachedData <- get this key ;;
  if truthy cachedData then
    console_log "Cache hit for" key ;;
    ret (Some cachedData)
  else
    console_log "Cache miss for" key ;;
    invoke key ;;
    ret None.

(** [fetchData] from the moment the awaited promise settles, at clock
    reading [t] with [outcome]: lines 39-41. *)
Definition fetchData_resume (key : string) (outcome : Res jsval) (t : Z)
  : M jsval :=
  newData <- settle outcome t ;;
  set key newData ;;
  ret newData.

(** The state of the event loop: the world, the calls suspended at their
    [await] (numbered in the order they were made, with their key), and
    what each finished call gave its caller. *)
Record Loop : Type := mkLoop {
  world : World;
  waiting : list (nat * string);
  results : list (nat * Res jsval);
  next_call : nat
}.

Definition start (w : World) : Loop := mkLoop w [] [] 0.

(** One turn of the event loop: either some caller calls
    [fetchData(key, loader)] at clock reading [t], or the loader of the
    suspended call [id] settles. *)
Inductive Turn : Type :=
| Call (t : Z) (key : string)
| Settle (id : nat) (outcome : Res jsval) (t : Z).

Fixpoint key_of (id : nat) (l : list (nat * string)) : option string :=
  match l with
  | [] => None
  | (i, key) :: rest => if Nat.eqb id i then Some key else key_of id rest
  end.

Definition turn (l : Loop) (x : Turn) : Loop :=
  match x with
  | Call t key =>
      match at_time t (fetchData_begin key) (world l) with
      | (Returned None, w') =>
          mkLoop w' (waiting l ++ [(next_call l, key)]) (results l)
            (S (next_call l))
      | (Returned (Some v), w') =>
          mkLoop w' (waiting l) (results l ++ [(next_call l, Returned v)])
            (S (next_call l))
      | (Threw err, w') =>
          mkLoop w' (waiting l) (results l ++ [(next_call l, Threw err)])
            (S (next_call l))
      end
  | Settle id outcome t =>
      match key_of id (waiting l) with
      | Some key =>
          let r := fetchData_resume key outcome t (world l) in
          mkLoop (snd r)
            (filter (fun p => negb (Nat.eqb id (fst p))) (waiting l))
            (results l ++ [(id, fst r)]) (next_call l)
      | None => l
      end
  end.

Definition run (turns : list Turn) (l : Loop) : Loop := fold_left turn turns l.

(** The load of call [id] being fulfilled with [d] at clock reading [t]. *)
Definition fulfilled (s : nat * jsval * Z) : Turn :=
  Settle (fst (fst s)) (Returned (snd (fst s))) (snd s).
End EventLoopModel.

(** A value of [req.query] as the query parser delivers it: a string, an
    array for a parameter given more than once, an object for a bracketed
    one. *)
#[local] Unset Elimination Schemes.
Inductive qvalue : Type :=
| QString (s : string)
| QArray (items : list qvalue)
| QObject (props : list (string * qvalue)).
#[local] Set Elimination Schemes.

(** [`${v}`]: a string as it is, an array as its elements joined by commas,
    an object as ["[object Object]"]. *)
Fixpoint template (v : qvalue) : string :=
  match v with
  | QString s => s
  | QArray items => String.concat "," (map template items)
  | QObject _ => "[object Object]"
  end.

(** Line 104 on the values of [req.query]. *)
Definition query_key (symbol period start end_ : qvalue) : string :=
  cacheKey (template symbol) (template period) (template start) (template end_).

(** No ["-"] occurs in the parameter. *)
Fixpoint hyphen_free (s : string) : bool :=
  match s with
  | EmptyString => true
  | String c rest => negb (Ascii.eqb c "-"%char) && hyphen_free rest
  end.

(** ** The server: [fetchDataFromAPI] and the [/timeseries] route *)

Module Server.

(** [v[name]] for a property name that is neither an array index nor
    inherited from a prototype, as are the five names read on lines 80-86.
    [props] lists the own properties of an object in enumeration order. *)
Fixpoint own_property (name : string) (props : list (string * jsval)) : jsval :=
  match props with
  | [] => JUndefined
  | (k, v) :: rest => if String.eqb name k then v else own_property name rest
  end.

Definition read_property (v : jsval) (name : string) : Res jsval :=
  match v with
  | JUndefined =>
      Threw (TypeError (String.append
        "Cannot read properties of undefined (reading '" (String.append name "')")))
  | JNull =>
      Threw (TypeError (String.append
        "Cannot read properties of null (reading '" (String.append name "')")))
  | JObject props => Returned (own_property name props)
  | JBool _ | JNum _ | JNaN | JStr _ | JArray _ => Returned JUndefined
  end.

(** The key of an indexed element: its index in decimal. *)
Definition index_key (n : nat) : string :=
  NilZero.string_of_uint (Nat.to_uint n).

Definition indexed (items : list jsval) : list (string * jsval) :=
  combine (map index_key (seq 0 (List.length items))) items.

Definition characters (s : string) : list jsval :=
  map (fun c => JStr (String c EmptyString)) (list_ascii_of_string s).

(** [Object.entries(v)]. *)
Definition Object_entries (v : jsval) : Res (list (string * jsval)) :=
  match v with
  | JUndefined | JNull =>
      Threw (TypeError "Cannot convert undefined or null to object")
  | JObject props => Returned props
  | JArray items => Returned (indexed items)
  | JStr s => Returned (indexed (characters s))
  | JBool _ | JNum _ | JNaN => Returned []
  end.

Definition and_then {A B} (r : Res A) (k : A -> Res B) : Res B :=
  match r with
  | Returned a => k a
  | Threw e => Threw e
  end.

(** What the caller of the route sends back. *)
Record Response : Type := mkResponse { status : Z; json : jsval }.

(** [req.query], each parameter given once or not at all. *)
Record Query : Type := mkQuery {
  q_symbol : option string;
  q_period : option string;
  q_start : option string;
  q_end : option string
}.

(** What one request produced: the response, and the error handed to
    [console.error] if there was one. *)
Record Reply : Type := mkReply { response : Response; reported : option jserror }.

(** [console.log(line)] *)
Definition console_log1 (line : string) : M unit :=
  fun w => (Returned tt, with_console (console w ++ [line]) w).

(** [try { body } catch (error) { handler }] *)
Definition try_catch {A} (body : M A) (handler : jserror -> M A) : M A :=
  fun w =>
    match body w with
    | (Returned a, w') => (Returned a, w')
    | (Threw error, w') => handler error w'
    end.

(** [const cache = new TimeSeriesCache()], line 96. *)
Definition server_cache : TimeSeriesCache := constructor None None.

Section Upstream.
(** [axios.get(url, { params })]: fulfilled with [response.data], or
    rejected. *)
Variable axios_get : string -> list (string * string) -> Loader.
(** The builtin [parseFloat]. *)
Variable parseFloat : jsval -> jsval.

(** The arrow function of [.map], lines 81-87. *)
Definition point (time : string) (values : jsval) : Res jsval :=
  and_then (read_property values "1. open") (fun open =>
  and_then (read_property values "2. high") (fun high =>
  and_then (read_property values "3. low") (fun low =>
  and_then (read_property values "4. close") (fun close =>
  Returned (JObject [("time", JStr time);
                     ("open", parseFloat open);
                     ("high", parseFloat high);
                     ("low", parseFloat low);
                     ("close", parseFloat close)]))))).

Fixpoint map_points (entries : list (string * jsval)) : Res (list jsval) :=
  match entries with
  | [] => Returned []
  | (time, values) :: rest =>
      and_then (point time values) (fun p =>
      and_then (map_points rest) (fun ps => Returned (p :: ps)))
  end.

(** Lines 79-91: what is made of [response.data]. *)
Definition process_response (response_data : jsval) : Res jsval :=
  and_then (read_property response_data "Time Series (1min)") (fun series =>
  if truthy series then
    and_then (Object_entries series) (fun entries =>
    and_then (map_points entries) (fun points => Returned (JArray points)))
  else Threw (Error "Unexpected API response")).

(** [fetchDataFromAPI(symbol, period, startTime, endTime)], lines 65-92,
    seen from its caller: it settles when the request does. *)
Definition fetchDataFromAPI (symbol period startTime endTime : string) : Loader :=
  fun t0 =>
    let apiKey := "3KGZSQDF3FNO45FI" in
    let interval := period in
    let answer :=
      axios_get "https://www.alphavantage.co/query"
        [("function", "TIME_SERIES_INTRADAY"); ("symbol", symbol);
         ("interval", interval); ("apikey", apiKey)] t0 in
    (and_then (fst answer) process_response, snd answer).

Definition error_body (message : string) : jsval :=
  JObject [("error", JStr message)].

(** [{ symbol, period, data }] *)
Definition data_body (symbol period : string) (payload : jsval) : jsval :=
  JObject [("symbol", JStr symbol); ("period", JStr period); ("data", payload)].

(** The handler of [GET /timeseries], lines 98-123. *)
Definition timeseries (q : Query) : M Reply :=
  if negb (nonempty (q_symbol q)) || negb (nonempty (q_period q))
     || negb (nonempty (q_start q)) || negb (nonempty (q_end q))
  then ret (mkReply (mkResponse 400 (error_body "Missing required query parameters")) None)
  else
    match q_symbol q, q_period q, q_start q, q_end q with
    | Some symbol, Some period, Some start, Some end_ =>
        let key := cacheKey symbol period start end_ in
        try_catch
          (cachedData <- get server_cache key ;;
           if truthy cachedData then
             console_log1 "Cache hit" ;;
             ret (mkReply (mkResponse 200 (data_body symbol period cachedData)) None)
           else
             console_log1 "Cache miss" ;;
             fetchedData <- await key (fetchDataFromAPI symbol period start end_) ;;
             set key fetchedData ;;
             ret (mkReply (mkResponse 200 (data_body symbol period fetchedData)) None))
          (fun error =>
             ret (mkReply
                    (mkResponse 500 (error_body "Failed to fetch timeseries data"))
                    (Some error)))
    | _, _, _, _ =>
        ret (mkReply (mkResponse 400 (error_body "Missing required query parameters")) None)
    end.
End Upstream.

End Server.

(** ** Facts about [Map] *)

Module JsMapFacts.
Section WithValues.
Context {V : Type}.
Implicit Types (m : JsMap.t V) (k : string) (v : V).

Lemma get_set_same k v m : JsMap.get k (JsMap.set k v m) = Some v.
Proof.
  induction m as [|[k0 v0] m IH]; simpl.
  - now rewrite String.eqb_refl.
  - destruct (String.eqb k k0) eqn:E; simpl; rewrite E; auto.
Qed.

Lemma get_set_other k k' v m :
  k' <> k -> JsMap.get k' (JsMap.set k v m) = JsMap.get k' m.
Proof.
  intros Hne. induction m as [|[k0 v0] m IH]; simpl.
  - apply String.eqb_neq in Hne. now rewrite Hne.
  - destruct (String.eqb k k0) eqn:E; simpl.
    + apply String.eqb_eq in E. subst k0.
      apply String.eqb_neq in Hne. now rewrite Hne.
    + now rewrite IH.
Qed.

Lemma get_delete_same k m : JsMap.get k (JsMap.delete k m) = None.
Proof.
  induction m as [|[k0 v0] m IH]; simpl; auto.
  destruct (String.eqb k k0) eqn:E; simpl; auto. now rewrite E.
Qed.

Lemma get_delete_other k k' m :
  k' <> k -> JsMap.get k' (JsMap.delete k m) = JsMap.get k' m.
Proof.
  intros Hne. induction m as [|[k0 v0] m IH]; simpl; auto.
  destruct (String.eqb k k0) eqn:E; simpl.
  - apply String.eqb_eq in E. subst k0.
    apply String.eqb_neq in Hne. now rewrite Hne.
  - now rewrite IH.
Qed.

Lemma delete_absent k m : JsMap.get k m = None -> JsMap.delete k m = m.
Proof.
  induction m as [|[k0 v0] m IH]; simpl; auto.
  destruct (String.eqb k k0); [discriminate|].
  intros H. now rewrite IH.
Qed.

End WithValues.
End JsMapFacts.

(** ** What one call of a method does *)

Lemma bind_run {A B} (m : M A) (k : A -> M B) (w : World) :
  bind m k w =
    match m w with
    | (Returned a, w') => k a w'
    | (Threw e, w') => (Threw e, w')
    end.
Proof. reflexivity. Qed.

Ltac run :=
  unfold at_time, await, settle, invoke, cache_get, cache_set, cache_delete,
    cache_entries, console_log, Date_now, bind, ret, throw; simpl.

Section MethodFacts.
Variable this : TimeSeriesCache.
Implicit Types (w : World) (k : string) (e : Entry).

Lemma set_eq k d w :
  set k d w = (Returned tt, with_cache (JsMap.set k (mkEntry d (now w)) (cache w)) w).
Proof. reflexivity. Qed.

Lemma get_fresh k e w :
  JsMap.get k (cache w) = Some e -> fresh this (now w) e ->
  get this k w = (Returned (data e), w).
Proof.
  unfold fresh, get, isExpired. run. intros -> H.
  replace (now w - timestamp e >? expirationDuration this) with false; auto.
  symmetry. rewrite Z.gtb_ltb. apply Z.ltb_ge. lia.
Qed.

Lemma get_stale k e w :
  JsMap.get k (cache w) = Some e -> ~ fresh this (now w) e ->
  get this k w = (Returned JNull, with_cache (JsMap.delete k (cache w)) w).
Proof.
  unfold fresh, get, isExpired. run. intros -> H.
  replace (now w - timestamp e >? expirationDuration this) with true; auto.
  symmetry. rewrite Z.gtb_ltb. apply Z.ltb_lt. lia.
Qed.

Lemma get_absent k w :
  JsMap.get k (cache w) = None ->
  get this k w = (Returned JNull, with_cache (JsMap.delete k (cache w)) w).
Proof. unfold get. run. now intros ->. Qed.

(** [get] always returns, reads nothing but the Map and the clock, and
    writes nothing but the Map. *)
Lemma get_frame k w :
  exists v c, get this k w = (Returned v, with_cache c w).
Proof.
  destruct (JsMap.get k (cache w)) as [e|] eqn:E.
  - destruct (Z_le_gt_dec (now w - timestamp e) (expirationDuration this)).
    + exists (data e), (cache w). rewrite (get_fresh k e w E); auto.
      now destruct w.
    + eexists _, _. apply (get_stale k e w E). unfold fresh. lia.
  - eexists _, _. now apply get_absent.
Qed.

Lemma at_time_get_fresh k e w t :
  JsMap.get k (cache w) = Some e -> fresh this t e ->
  at_time t (get this k) w = (Returned (data e), with_now t w).
Proof. intros H1 H2. unfold at_time. now apply get_fresh. Qed.

Lemma at_time_get_stale k e w t :
  JsMap.get k (cache w) = Some e -> ~ fresh this t e ->
  at_time t (get this k) w
  = (Returned JNull, with_cache (JsMap.delete k (cache w)) (with_now t w)).
Proof.
  intros H1 H2. unfold at_time.
  now rewrite (get_stale k e (with_now t w) H1 H2).
Qed.

Lemma at_time_get_absent k w t :
  JsMap.get k (cache w) = None ->
  at_time t (get this k) w = (Returned JNull, with_now t w).
Proof.
  intros H. unfold at_time. rewrite get_absent by exact H.
  simpl. rewrite JsMapFacts.delete_absent by exact H. now destruct w.
Qed.

(** What [fetchData] does, given what its call of [get] did. *)
Lemma fetchData_eq k loader w v c :
  get this k w = (Returned v, with_cache c w) ->
  fetchData this k loader w =
    if truthy v then
      (Returned v,
       with_console (console w ++ [log_line "Cache hit for" k]) (with_cache c w))
    else
      let w1 := with_upstream (upstream w ++ [k])
                  (with_console (console w ++ [log_line "Cache miss for" k])
                     (with_cache c w)) in
      let t := snd (loader (now w)) in
      match fst (loader (now w)) with
      | Returned d =>
          (Returned d, with_cache (JsMap.set k (mkEntry d t) c) (with_now t w1))
      | Threw err => (Threw err, with_now t w1)
      end.
Proof.
  intros Hget. unfold fetchData. unfold bind at 1. rewrite Hget.
  destruct (truthy v); [reflexivity|].
  unfold set. run. now destruct (fst (loader (now w))).
Qed.

Lemma repeated_get_cons k t ts w v w0 :
  at_time t (get this k) w = (Returned v, w0) ->
  repeated_get this k (t :: ts) w =
    match repeated_get this k ts w0 with
    | (Returned vs, w1) => (Returned (v :: vs), w1)
    | (Threw err, w1) => (Threw err, w1)
    end.
Proof.
  intros H. cbn [repeated_get]. unfold bind at 1. rewrite H.
  unfold bind, ret. now destruct (repeated_get this k ts w0) as [[?|?] ?].
Qed.

Lemma repeated_get_absent k ts : forall w,
  JsMap.get k (cache w) = None ->
  fst (repeated_get this k ts w) = Returned (repeat JNull (List.length ts))
  /\ cache (snd (repeated_get this k ts w)) = cache w.
Proof.
  induction ts as [|t ts IH]; intros w H; [now split|].
  rewrite (repeated_get_cons k t ts w _ _ (at_time_get_absent k w t H)).
  specialize (IH (with_now t w) H).
  destruct (repeated_get this k ts (with_now t w)) as [[vs|err] w'];
    simpl in *; destruct IH as [IH1 IH2]; [|discriminate].
  injection IH1 as ->. now split.
Qed.

Lemma repeated_get_fresh k e ts : forall w,
  JsMap.get k (cache w) = Some e -> Forall (fun t => fresh this t e) ts ->
  fst (repeated_get this k ts w) = Returned (repeat (data e) (List.length ts))
  /\ cache (snd (repeated_get this k ts w)) = cache w.
Proof.
  induction ts as [|t ts IH]; intros w H Hall; [now split|].
  inversion Hall as [|? ? Ht Hts]; subst.
  rewrite (repeated_get_cons k t ts w _ _ (at_time_get_fresh k e w t H Ht)).
  specialize (IH (with_now t w) H Hts).
  destruct (repeated_get this k ts (with_now t w)) as [[vs|err] w'];
    simpl in *; destruct IH as [IH1 IH2]; [|discriminate].
  injection IH1 as ->. now split.
Qed.

Lemma repeated_get_app k ts1 ts2 w :
  repeated_get this k (ts1 ++ ts2) w =
    match repeated_get this k ts1 w with
    | (Returned vs1, w1) =>
        match repeated_get this k ts2 w1 with
        | (Returned vs2, w2) => (Returned (vs1 ++ vs2), w2)
        | (Threw err, w2) => (Threw err, w2)
        end
    | (Threw err, w1) => (Threw err, w1)
    end.
Proof.
  revert w. induction ts1 as [|t ts1 IH]; intros w.
  - simpl. unfold ret. now destruct (repeated_get this k ts2 w) as [[?|?] ?].
  - cbn [app repeated_get]. unfold bind, ret.
    destruct (at_time t (get this k) w) as [[v|err] w0]; [|reflexivity].
    rewrite IH.
    destruct (repeated_get this k ts1 w0) as [[vs1|err] w1]; [|reflexivity].
    now destruct (repeated_get this k ts2 w1) as [[vs2|err] w2].
Qed.
End MethodFacts.

(** ** Reading and writing: [get] and [set] *)

(** C2. For every key and every clock reading, [get key] returns the stored
    payload exactly when the key has an entry whose age, the clock minus the
    time of its last [set], is at most the TTL, and then changes nothing.
    Otherwise it returns [null], the key has no entry afterwards, every other
    key keeps its entry, and neither the clock, the console nor the list of
    upstream fetches changes.  With a TTL of 600000 and [set(k, D1)] at time
    0, [get(k)] returns D1 at 500000, and at 600001 returns [null] and
    leaves no entry for [k]. *)
Theorem get_returns_payload_iff_fresh (this : TimeSeriesCache) (k : string) (w : World) :
  (forall e, JsMap.get k (cache w) = Some e -> fresh this (now w) e ->
     get this k w = (Returned (data e), w))
  /\ ((JsMap.get k (cache w) = None \/
       exists e, JsMap.get k (cache w) = Some e /\ ~ fresh this (now w) e) ->
      let w' := snd (get this k w) in
      fst (get this k w) = Returned JNull
      /\ cache w' = JsMap.delete k (cache w)
      /\ JsMap.get k (cache w') = None
      /\ (forall k', k' <> k -> JsMap.get k' (cache w') = JsMap.get k' (cache w))
      /\ now w' = now w /\ console w' = console w /\ upstream w' = upstream w)
  /\ (forall (D1 : jsval) (interval : option Z),
      let cache0 := constructor (Some 600000) interval in
      let key := "AAPL-1min-t0-t1" in
      let w0 := snd (at_time 0 (set key D1) (initial_world 0)) in
      let r1 := at_time 500000 (get cache0 key) w0 in
      let r2 := at_time 600001 (get cache0 key) (snd r1) in
      fst r1 = Returned D1
      /\ fst r2 = Returned JNull
      /\ JsMap.get key (cache (snd r2)) = None).
Proof.
  split; [|split].
  - intros e H1 H2. now apply get_fresh.
  - intros H.
    assert (E : get this k w
                = (Returned JNull, with_cache (JsMap.delete k (cache w)) w)).
    { destruct H as [H|[e [H1 H2]]];
        [now apply get_absent | now apply (get_stale this k e)]. }
    rewrite E. cbn [fst snd with_cache cache now console upstream].
    repeat split; auto using JsMapFacts.get_delete_same.
    intros k' Hne. now apply JsMapFacts.get_delete_other.
  - intros D1 interval. cbv zeta. repeat split.
Qed.

Lemma get_returns_payload_iff_fresh_witness :
  let cache0 := constructor None None in
  let w := mkWorld [("k", mkEntry (JStr "D1") 0)] 500000 [] [] in
  let late := with_now 600001 w in
  get cache0 "k" w = (Returned (JStr "D1"), w)
  /\ fst (get cache0 "k" late) = Returned JNull
  /\ JsMap.get "k" (cache (snd (get cache0 "k" late))) = None.
Proof.
  cbv zeta. split.
  - apply (proj1 (get_returns_payload_iff_fresh (constructor None None) "k"
                    (mkWorld [("k", mkEntry (JStr "D1") 0)] 500000 [] []))
                 (mkEntry (JStr "D1") 0)).
    + reflexivity.
    + unfold fresh. simpl. lia.
  - pose proof (proj1 (proj2 (get_returns_payload_iff_fresh (constructor None None) "k"
                    (with_now 600001 (mkWorld [("k", mkEntry (JStr "D1") 0)] 500000 [] []))))) as H.
    cbv zeta in H. split; apply H; right; exists (mkEntry (JStr "D1") 0);
      (split; [reflexivity | unfold fresh; simpl; lia]).
Defined.

(** C8. Reading one key again and again, with no [set] in between: as long
    as every reading is taken within the TTL of the entry, each call returns
    the same payload and the Map stays as it was; the first reading taken
    after the TTL returns [null] and removes the entry, and every later call
    returns [null] as well, whatever the clock shows then.  A key without an
    entry reads as [null] every time. *)
Theorem get_idempotent_until_expiry (this : TimeSeriesCache) (k : string) (w : World) :
  (forall e ts,
      JsMap.get k (cache w) = Some e -> Forall (fun t => fresh this t e) ts ->
      fst (repeated_get this k ts w) = Returned (repeat (data e) (List.length ts))
      /\ cache (snd (repeated_get this k ts w)) = cache w)
  /\ (forall e ts1 t ts2,
      JsMap.get k (cache w) = Some e -> Forall (fun t => fresh this t e) ts1 ->
      ~ fresh this t e ->
      fst (repeated_get this k (ts1 ++ t :: ts2) w)
      = Returned (repeat (data e) (List.length ts1)
                  ++ JNull :: repeat JNull (List.length ts2))
      /\ JsMap.get k (cache (snd (repeated_get this k (ts1 ++ t :: ts2) w))) = None)
  /\ (forall ts,
      JsMap.get k (cache w) = None ->
      fst (repeated_get this k ts w) = Returned (repeat JNull (List.length ts))).
Proof.
  split; [|split].
  - intros e ts H Hall. now apply repeated_get_fresh.
  - intros e ts1 t ts2 H Hall Hstale.
    rewrite repeated_get_app.
    destruct (repeated_get_fresh this k e ts1 w H Hall) as [F1 F2].
    destruct (repeated_get this k ts1 w) as [[vs1|err] w1]; simpl in F1, F2;
      [|discriminate].
    injection F1 as ->.
    assert (H1 : JsMap.get k (cache w1) = Some e) by now rewrite F2.
    rewrite (repeated_get_cons this k t ts2 w1 _ _
               (at_time_get_stale this k e w1 t H1 Hstale)).
    set (w2 := with_cache (JsMap.delete k (cache w1)) (with_now t w1)).
    assert (H2 : JsMap.get k (cache w2) = None)
      by apply JsMapFacts.get_delete_same.
    destruct (repeated_get_absent this k ts2 w2 H2) as [A1 A2].
    destruct (repeated_get this k ts2 w2) as [[vs2|err] w3]; simpl in A1, A2;
      [|discriminate].
    injection A1 as ->. simpl. split; [reflexivity|]. now rewrite A2.
  - intros ts H. now apply repeated_get_absent.
Qed.

Lemma get_idempotent_until_expiry_witness :
  let cache0 := constructor None None in
  let w := mkWorld [("k", mkEntry (JStr "D1") 0)] 0 [] [] in
  fst (repeated_get cache0 "k" [100; 600000; 600001; 5; 700000] w)
  = Returned [JStr "D1"; JStr "D1"; JNull; JNull; JNull]
  /\ fst (repeated_get cache0 "k" [1; 2] w) = Returned [JStr "D1"; JStr "D1"]
  /\ fst (repeated_get cache0 "other" [1; 2] w) = Returned [JNull; JNull].
Proof.
  cbv zeta.
  pose proof (get_idempotent_until_expiry (constructor None None) "k"
                (mkWorld [("k", mkEntry (JStr "D1") 0)] 0 [] [])) as [H1 [H2 _]].
  pose proof (get_idempotent_until_expiry (constructor None None) "other"
                (mkWorld [("k", mkEntry (JStr "D1") 0)] 0 [] [])) as [_ [_ H3]].
  split; [|split].
  - apply (H2 (mkEntry (JStr "D1") 0) [100; 600000] 600001 [5; 700000]).
    + reflexivity.
    + repeat constructor; unfold fresh; simpl; lia.
    + unfold fresh; simpl; lia.
  - apply (H1 (mkEntry (JStr "D1") 0) [1; 2]).
    + reflexivity.
    + repeat constructor; unfold fresh; simpl; lia.
  - apply (H3 [1; 2]). reflexivity.
Defined.

(** X16. [set] and [get] never throw, whatever the key, the payload and the
    state: [set] returns, and [get] returns either [null] or the payload of
    the entry stored under the key.  A failure that [fetchData] hands to
    its caller is the one its loader was rejected with. *)
Theorem get_set_total (this : TimeSeriesCache) (k : string) (d : jsval) (w : World) :
  (exists w', set k d w = (Returned tt, w'))
  /\ (exists v w', get this k w = (Returned v, w')
        /\ (v = JNull \/ exists e, JsMap.get k (cache w) = Some e /\ v = data e))
  /\ (forall loader err w',
        fetchData this k loader w = (Threw err, w') ->
        fst (loader (now w)) = Threw err).
Proof.
  split; [|split].
  - eexists. apply set_eq.
  - destruct (JsMap.get k (cache w)) as [e|] eqn:E.
    + destruct (Z_le_gt_dec (now w - timestamp e) (expirationDuration this)).
      * exists (data e), w. split; [now apply get_fresh|]. right. now exists e.
      * eexists _, _. split; [|now left].
        apply (get_stale this k e w E). unfold fresh. lia.
    + eexists _, _. split; [now apply get_absent | now left].
  - intros loader err w' H.
    destruct (get_frame this k w) as [v [c Hget]].
    rewrite (fetchData_eq this k loader w v c Hget) in H.
    destruct (truthy v); [discriminate|]. cbv zeta in H.
    destruct (fst (loader (now w))); [discriminate|]. congruence.
Qed.

Lemma get_set_total_witness :
  fst ((fun _ : Z => (@Threw jsval (Error "Unexpected API response"), 7)) 0)
  = Threw (Error "Unexpected API response").
Proof.
  apply (proj2 (proj2 (get_set_total (constructor None None) "X" JNull (initial_world 0)))
           (fun _ => (Threw (Error "Unexpected API response"), 7))
           (Error "Unexpected API response")
           (snd (fetchData (constructor None None) "X"
                   (fun _ => (Threw (Error "Unexpected API response"), 7))
                   (initial_world 0)))).
  reflexivity.
Defined.

(** ** Cache-aside loading: [fetchData] *)

Section FetchData.
Variable this : TimeSeriesCache.
Implicit Types (w : World) (k : string) (e : Entry) (loader : Loader).

Lemma get_absent_or_expired k w :
  absent_or_expired this k w ->
  get this k w = (Returned JNull, with_cache (JsMap.delete k (cache w)) w).
Proof.
  intros [H|[e [H1 H2]]];
    [now apply get_absent | now apply (get_stale this k e)].
Qed.

(** A load that starts from a miss of [get]. *)
Lemma fetchData_after_eviction k loader w :
  absent_or_expired this k w ->
  fetchData this k loader w =
    let w1 := with_upstream (upstream w ++ [k])
                (with_console (console w ++ [log_line "Cache miss for" k])
                   (with_cache (JsMap.delete k (cache w)) w)) in
    let t := snd (loader (now w)) in
    match fst (loader (now w)) with
    | Returned d =>
        (Returned d,
         with_cache (JsMap.set k (mkEntry d t) (JsMap.delete k (cache w)))
           (with_now t w1))
    | Threw err => (Threw err, with_now t w1)
    end.
Proof.
  intros H.
  now rewrite (fetchData_eq this k loader w JNull _ (get_absent_or_expired k w H)).
Qed.

(** A load on a key whose entry is within its TTL. *)
Lemma fetchData_on_fresh k loader w e :
  JsMap.get k (cache w) = Some e -> fresh this (now w) e ->
  fetchData this k loader w =
    if truthy (data e) then
      (Returned (data e),
       with_console (console w ++ [log_line "Cache hit for" k]) w)
    else
      let w1 := with_upstream (upstream w ++ [k])
                  (with_console (console w ++ [log_line "Cache miss for" k]) w) in
      let t := snd (loader (now w)) in
      match fst (loader (now w)) with
      | Returned d =>
          (Returned d,
           with_cache (JsMap.set k (mkEntry d t) (cache w)) (with_now t w1))
      | Threw err => (Threw err, with_now t w1)
      end.
Proof.
  intros H1 H2.
  assert (Hget : get this k w = (Returned (data e), with_cache (cache w) w)).
  { rewrite (get_fresh this k e w H1 H2). now destruct w. }
  rewrite (fetchData_eq this k loader w _ _ Hget).
  now destruct w.
Qed.
End FetchData.

(** C4. When [fetchData] misses because the key has no entry or an expired
    one, and the loader is rejected, the caller gets that very error, the
    key has no entry afterwards, every other key keeps its entry, and a Map
    that had no entry for the key is returned as it was.  The loader was
    called once. *)
Theorem fetchData_failure_propagates
  (this : TimeSeriesCache) (k : string) (loader : Loader) (w : World) (err : jserror) :
  absent_or_expired this k w ->
  fst (loader (now w)) = Threw err ->
  let r := fetchData this k loader w in
  fst r = Threw err
  /\ JsMap.get k (cache (snd r)) = None
  /\ (forall k', k' <> k -> JsMap.get k' (cache (snd r)) = JsMap.get k' (cache w))
  /\ (JsMap.get k (cache w) = None -> cache (snd r) = cache w)
  /\ upstream (snd r) = upstream w ++ [k].
Proof.
  intros Hmiss Hfail. cbv zeta.
  rewrite (fetchData_after_eviction this k loader w Hmiss). cbv zeta.
  rewrite Hfail. cbn [fst snd with_now with_upstream with_console with_cache
                      cache upstream now console].
  repeat split.
  - apply JsMapFacts.get_delete_same.
  - intros k' Hne. now apply JsMapFacts.get_delete_other.
  - apply JsMapFacts.delete_absent.
Qed.

Lemma fetchData_failure_propagates_witness :
  let cache0 := constructor None None in
  let failing : Loader := fun t => (Threw (Error "Unexpected API response"), t + 120) in
  let r := fetchData cache0 "X" failing (initial_world 0) in
  fst r = Threw (Error "Unexpected API response")
  /\ JsMap.get "X" (cache (snd r)) = None.
Proof.
  cbv zeta.
  pose proof (fetchData_failure_propagates (constructor None None) "X"
                (fun t => (Threw (Error "Unexpected API response"), t + 120))
                (initial_world 0) (Error "Unexpected API response")) as H.
  cbv zeta in H.
  assert (Hm : absent_or_expired (constructor None None) "X" (initial_world 0))
    by (left; reflexivity).
  destruct (H Hm eq_refl) as [H1 [H2 _]]. split; assumption.
Defined.

(** C6 does not hold as stated: an entry within its TTL whose payload is the
    number 0 does not stop [fetchData] from calling the loader and returning
    the loader's result. *)
Lemma fetchData_fresh_entry_counterexample :
  ~ (forall (this : TimeSeriesCache) (k : string) (loader : Loader) (w : World) (e : Entry),
        JsMap.get k (cache w) = Some e -> fresh this (now w) e ->
        fst (fetchData this k loader w) = Returned (data e)
        /\ upstream (snd (fetchData this k loader w)) = upstream w).
Proof.
  intros H.
  specialize (H (constructor None None) "k"
                (fun t => (Returned (JNum 42), t + 250))
                (mkWorld [("k", mkEntry (JNum 0) 0)] 1000 [] [])
                (mkEntry (JNum 0) 0) eq_refl).
  destruct H as [H _]; [unfold fresh; simpl; lia | discriminate H].
Qed.

(** C6, amended.  [fetchData] returns the cached payload without calling the
    loader when the key has an entry within its TTL whose payload is truthy.
    When the key has no entry or an expired one, it calls the loader exactly
    once, and if the loader is fulfilled it stores the result under the key,
    stamped with the time at which the loader settled, and returns it. *)
Theorem fetchData_cache_aside
  (this : TimeSeriesCache) (k : string) (loader : Loader) (w : World) :
  (forall e,
      JsMap.get k (cache w) = Some e -> fresh this (now w) e ->
      truthy (data e) = true ->
      fetchData this k loader w
      = (Returned (data e),
         with_console (console w ++ [log_line "Cache hit for" k]) w))
  /\ (absent_or_expired this k w ->
      let r := fetchData this k loader w in
      upstream (snd r) = upstream w ++ [k]
      /\ forall d,
          fst (loader (now w)) = Returned d ->
          fst r = Returned d
          /\ JsMap.get k (cache (snd r)) = Some (mkEntry d (snd (loader (now w))))).
Proof.
  split.
  - intros e H1 H2 H3.
    rewrite (fetchData_on_fresh this k loader w e H1 H2). now rewrite H3.
  - intros Hmiss. cbv zeta.
    rewrite (fetchData_after_eviction this k loader w Hmiss). cbv zeta.
    split.
    + now destruct (fst (loader (now w))).
    + intros d Hd. rewrite Hd. split; [reflexivity|].
      apply JsMapFacts.get_set_same.
Qed.

Lemma fetchData_cache_aside_witness :
  let cache0 := constructor None None in
  let loader : Loader := fun t => (Returned (JStr "D2"), t + 250) in
  let warm := mkWorld [("k", mkEntry (JStr "D1") 0)] 1000 [] [] in
  let stale := with_now 600001 warm in
  fetchData cache0 "k" loader warm
  = (Returned (JStr "D1"), with_console ["Cache hit for k"] warm)
  /\ upstream (snd (fetchData cache0 "k" loader stale)) = ["k"]
  /\ fst (fetchData cache0 "k" loader stale) = Returned (JStr "D2")
  /\ JsMap.get "k" (cache (snd (fetchData cache0 "k" loader stale)))
     = Some (mkEntry (JStr "D2") 600251).
Proof.
  cbv zeta. split.
  - apply (proj1 (fetchData_cache_aside (constructor None None) "k"
                    (fun t => (Returned (JStr "D2"), t + 250))
                    (mkWorld [("k", mkEntry (JStr "D1") 0)] 1000 [] []))
                 (mkEntry (JStr "D1") 0)).
    + reflexivity.
    + unfold fresh. simpl. lia.
    + reflexivity.
  - pose proof (proj2 (fetchData_cache_aside (constructor None None) "k"
                    (fun t => (Returned (JStr "D2"), t + 250))
                    (with_now 600001 (mkWorld [("k", mkEntry (JStr "D1") 0)] 1000 [] [])))) as H.
    cbv zeta in H.
    assert (Hm : absent_or_expired (constructor None None) "k"
                   (with_now 600001 (mkWorld [("k", mkEntry (JStr "D1") 0)] 1000 [] []))).
    { right. exists (mkEntry (JStr "D1") 0).
      split; [reflexivity | unfold fresh; simpl; lia]. }
    destruct (H Hm) as [H1 H2]. split; [exact H1|].
    apply (H2 (JStr "D2")). reflexivity.
Defined.

(** C10. [null], [0], the empty string, [NaN] and [false] are falsy, and for
    a key whose entry is within its TTL but holds a falsy payload,
    [fetchData] takes the miss branch: it logs a miss, calls the loader
    once, and if the loader is fulfilled it overwrites the entry with the
    loader's result and returns that result, not the stored payload.  The
    entry is not removed before the load. *)
Theorem fetchData_falsy_payload_is_miss
  (this : TimeSeriesCache) (k : string) (loader : Loader) (w : World) (e : Entry) :
  JsMap.get k (cache w) = Some e -> fresh this (now w) e ->
  truthy (data e) = false ->
  let r := fetchData this k loader w in
  Forall (fun v => truthy v = false) [JNull; JNum 0; JStr ""; JNaN; JBool false]
  /\ upstream (snd r) = upstream w ++ [k]
  /\ console (snd r) = console w ++ [log_line "Cache miss for" k]
  /\ (forall d,
        fst (loader (now w)) = Returned d ->
        r = (Returned d,
             with_cache (JsMap.set k (mkEntry d (snd (loader (now w)))) (cache w))
               (with_now (snd (loader (now w)))
                  (with_upstream (upstream w ++ [k])
                     (with_console (console w ++ [log_line "Cache miss for" k]) w)))))
  /\ (forall d,
        fst (loader (now w)) = Returned d ->
        JsMap.get k (cache (snd r)) = Some (mkEntry d (snd (loader (now w))))).
Proof.
  intros H1 H2 H3. cbv zeta.
  rewrite (fetchData_on_fresh this k loader w e H1 H2). rewrite H3. cbv zeta.
  split; [repeat constructor|].
  split; [now destruct (fst (loader (now w)))|].
  split; [now destruct (fst (loader (now w)))|].
  split; intros d Hd; rewrite Hd; [reflexivity|].
  apply JsMapFacts.get_set_same.
Qed.

Lemma fetchData_falsy_payload_is_miss_witness :
  let cache0 := constructor None None in
  let loader : Loader := fun t => (Returned (JStr "D2"), t + 250) in
  let w := mkWorld [("k", mkEntry JNull 0)] 1000 [] [] in
  upstream (snd (fetchData cache0 "k" loader w)) = ["k"]
  /\ JsMap.get "k" (cache (snd (fetchData cache0 "k" loader w)))
     = Some (mkEntry (JStr "D2") 1250).
Proof.
  cbv zeta.
  pose proof (fetchData_falsy_payload_is_miss (constructor None None) "k"
                (fun t => (Returned (JStr "D2"), t + 250))
                (mkWorld [("k", mkEntry JNull 0)] 1000 [] [])
                (mkEntry JNull 0) eq_refl) as H.
  cbv zeta in H.
  destruct H as [_ [H1 [_ [_ H2]]]]; [unfold fresh; simpl; lia | reflexivity |].
  split; [exact H1|]. apply (H2 (JStr "D2")). reflexivity.
Defined.

(** ** The refresh pass *)

Section RefreshPass.
Variable this : TimeSeriesCache.
Implicit Types (w : World) (k : string) (e : Entry).

(** One turn of the loop. *)
Lemma refresh_entries_cons k e rest w :
  refresh_entries this ((k, e) :: rest) w =
    if now w - timestamp e >? expirationDuration this then
      refresh_entries this rest w
    else
      match call_fetchFunction this k
              (with_console (console w ++ [log_line "Refreshing cache for" k]) w)
      with
      | (Returned d, w2) =>
          refresh_entries this rest
            (with_cache (JsMap.set k (mkEntry d (now w2)) (cache w2)) w2)
      | (Threw err, w2) => (Threw err, w2)
      end.
Proof.
  cbn [refresh_entries]. unfold isExpired, set. run.
  destruct (now w - timestamp e >? expirationDuration this); simpl;
    [reflexivity|].
  now destruct (call_fetchFunction this k _) as [[d|err] w2].
Qed.

Lemma fresh_not_expired e t :
  fresh this t e -> (t - timestamp e >? expirationDuration this) = false.
Proof. unfold fresh. intros H. rewrite Z.gtb_ltb. apply Z.ltb_ge. lia. Qed.

(** The call on line 49 never writes to the Map. *)
Lemma call_fetchFunction_cache k w :
  cache (snd (call_fetchFunction this k w)) = cache w.
Proof. unfold call_fetchFunction. now destruct (fetchFunction this). Qed.

(** A pass over [entries] leaves every key outside [entries] alone. *)
Lemma refresh_entries_other_keys entries : forall w k',
  ~ In k' (JsMap.keys entries) ->
  JsMap.get k' (cache (snd (refresh_entries this entries w)))
  = JsMap.get k' (cache w).
Proof.
  induction entries as [|[k e] rest IH]; intros w k' Hnot; [reflexivity|].
  unfold JsMap.keys in *. simpl in Hnot.
  assert (Hne : k' <> k) by (intros ->; apply Hnot; now left).
  assert (Hrest : ~ In k' (map fst rest)) by tauto.
  rewrite refresh_entries_cons.
  destruct (now w - timestamp e >? expirationDuration this).
  - now apply IH.
  - pose proof (call_fetchFunction_cache k
      (with_console (console w ++ [log_line "Refreshing cache for" k]) w)) as Hc.
    destruct (call_fetchFunction this k _) as [[d|err] w2]; simpl in Hc.
    + rewrite IH by exact Hrest. simpl.
      rewrite JsMapFacts.get_set_other by exact Hne.
      now rewrite Hc.
    + simpl. now rewrite Hc.
Qed.

Lemma refresh_entries_app pre post w :
  refresh_entries this (pre ++ post) w =
    match refresh_entries this pre w with
    | (Returned _, w1) => refresh_entries this post w1
    | (Threw err, w1) => (Threw err, w1)
    end.
Proof.
  revert w. induction pre as [|[k e] pre IH]; intros w; [reflexivity|].
  rewrite <- app_comm_cons, !refresh_entries_cons.
  destruct (now w - timestamp e >? expirationDuration this); [apply IH|].
  destruct (call_fetchFunction this k _) as [[d|err] w2]; [apply IH|reflexivity].
Qed.

(** When [this.fetchFunction] is undefined, a pass changes nothing but the
    console, starts no fetch, and fails with a TypeError as soon as it
    meets an entry within its TTL. *)
Lemma refresh_entries_undefined entries : forall w,
  fetchFunction this = None ->
  let r := refresh_entries this entries w in
  cache (snd r) = cache w /\ upstream (snd r) = upstream w
  /\ now (snd r) = now w
  /\ (fst r = Returned tt
      \/ fst r = Threw (TypeError "this.fetchFunction is not a function")).
Proof.
  induction entries as [|[k e] rest IH]; intros w Hundef; cbv zeta.
  - simpl. auto.
  - rewrite refresh_entries_cons.
    destruct (now w - timestamp e >? expirationDuration this);
      [now apply IH|].
    unfold call_fetchFunction. rewrite Hundef. simpl. auto.
Qed.
End RefreshPass.

(** With a fetcher assigned to the object from outside, the same loop
    refreshes the entry that is within its TTL, stamps it with the time the
    fetch settled and skips the expired one. *)
Example refresh_pass_with_fetcher :
  let wired := mkTimeSeriesCache 600000 60000
                 (Some (fun _ t => (Returned (JStr "D2"), t + 100))) in
  let w := mkWorld [("old", mkEntry (JStr "D0") (-600000)); ("k", mkEntry (JStr "D1") 0)]
             60000 [] [] in
  let w1 := timer_fires wired 60000 w in
  cache w1 = [("old", mkEntry (JStr "D0") (-600000)); ("k", mkEntry (JStr "D2") 60100)]
  /\ upstream w1 = ["k"]
  /\ fst (at_time 120000 (get wired "k") w1) = Returned (JStr "D2").
Proof. cbv zeta. repeat split. Qed.

(** C1, as the code has it.  A cache built by the constructor has no
    [fetchFunction], so a refresh pass never calls a fetcher and never
    overwrites an entry: the Map and the list of upstream fetches are the
    same after the pass as before it.  In particular, with the entry set at
    time 0 with D1 and the timer firing at 60000, the pass ends with a
    TypeError at that entry, and [get] at 120000 still returns D1 with
    the time stamp 0. *)
Theorem refresh_pass_never_refreshes (ttl interval : option Z) (D1 : jsval) :
  let cache0 := constructor ttl interval in
  (forall w,
      cache (snd (refresh_pass cache0 w)) = cache w
      /\ upstream (snd (refresh_pass cache0 w)) = upstream w)
  /\ (let cacheB := constructor (Some 600000) (Some 60000) in
      let w0 := snd (at_time 0 (set "k" D1) (initial_world 0)) in
      let w1 := timer_fires cacheB (0 + delay (startAutoRefresh cacheB)) w0 in
      delay (startAutoRefresh cacheB) = 60000
      /\ fst (at_time 60000 (refresh_pass cacheB) w0)
      = Threw (TypeError "this.fetchFunction is not a function")
      /\ JsMap.get "k" (cache w1) = Some (mkEntry D1 0)
      /\ upstream w1 = []
      /\ fst (at_time 120000 (get cacheB "k") w1) = Returned D1).
Proof.
  cbv zeta. split.
  - intros w. unfold refresh_pass, cache_entries, bind.
    destruct (refresh_entries_undefined (constructor ttl interval)
                (JsMap.entries (cache w)) w eq_refl) as [H1 [H2 _]].
    now split.
  - repeat split.
Qed.

(** A pass over two entries within their TTL, "Y" before "Z".  On a cache as
    constructed, the fetch for "Y" fails with a TypeError, the error leaves
    the pass, "Z" is never visited and the only line on the console is the
    one printed before the fetch.  The same happens when a fetcher is
    installed that is rejected for "Y" and would be fulfilled for "Z". *)
Example refresh_pass_two_keys :
  let old := mkEntry (JStr "D1") 0 in
  let w := mkWorld [("Y", old); ("Z", old)] 60000 [] [] in
  let fetcher : string -> Loader := fun key t =>
    if String.eqb key "Y" then (Threw (Error "Unexpected API response"), t + 100)
    else (Returned (JStr "D2"), t + 100) in
  let plain := constructor None None in
  let wired := mkTimeSeriesCache 600000 60000 (Some fetcher) in
  (fst (refresh_pass plain w) = Threw (TypeError "this.fetchFunction is not a function")
   /\ console (snd (refresh_pass plain w)) = ["Refreshing cache for Y"]
   /\ cache (snd (refresh_pass plain w)) = cache w)
  /\ (fst (refresh_pass wired w) = Threw (Error "Unexpected API response")
      /\ console (snd (refresh_pass wired w)) = ["Refreshing cache for Y"]
      /\ upstream (snd (refresh_pass wired w)) = ["Y"]
      /\ JsMap.get "Z" (cache (snd (refresh_pass wired w))) = Some old).
Proof. cbv zeta. repeat split. Qed.

(** The pass on its own, up to the failure.  When it reaches a key whose
    entry is within its TTL and the fetch for that key fails, the pass ends
    there with that error: the keys after it are not visited, and nothing is
    printed after the line announcing the refresh.  In the world the pass
    leaves behind, the entry of the failed key is the one it was, as are the
    entries of the keys after it. *)
Lemma refresh_pass_stops_at_failure
  (this : TimeSeriesCache) (w w1 : World) (pre post : list (string * Entry))
  (k : string) (e : Entry) (err : jserror) :
  JsMap.entries (cache w) = pre ++ (k, e) :: post ->
  ~ In k (JsMap.keys pre) ->
  refresh_entries this pre w = (Returned tt, w1) ->
  fresh this (now w1) e ->
  fst (call_fetchFunction this k
         (with_console (console w1 ++ [log_line "Refreshing cache for" k]) w1))
  = Threw err ->
  let r := refresh_pass this w in
  fst r = Threw err
  /\ JsMap.get k (cache (snd r)) = Some e
  /\ (forall k', ~ In k' (JsMap.keys pre) ->
        JsMap.get k' (cache (snd r)) = JsMap.get k' (cache w))
  /\ console (snd r) = console w1 ++ [log_line "Refreshing cache for" k]
  /\ (forall t, fresh this t e ->
        fst (at_time t (get this k) (snd r)) = Returned (data e)).
Proof.
  intros Hsplit Hfirst Hpre Hfresh Hfail. cbv zeta.
  assert (Hk : JsMap.get k (cache w) = Some e).
  { unfold JsMap.entries in Hsplit. rewrite Hsplit. clear -Hfirst.
    unfold JsMap.keys in Hfirst.
    induction pre as [|[k0 e0] pre IH]; simpl in *.
    - now rewrite String.eqb_refl.
    - destruct (String.eqb k k0) eqn:E.
      + apply String.eqb_eq in E. subst k0. exfalso. apply Hfirst. now left.
      + apply IH. tauto. }
  assert (Hrun : refresh_pass this w
                 = (Threw err,
                    snd (call_fetchFunction this k
                           (with_console (console w1 ++ [log_line "Refreshing cache for" k]) w1)))).
  { unfold refresh_pass, cache_entries, bind. rewrite Hsplit.
    rewrite refresh_entries_app, Hpre, refresh_entries_cons.
    rewrite (fresh_not_expired this e _ Hfresh).
    destruct (call_fetchFunction this k _) as [[d|err'] w2]; simpl in *;
      [discriminate|congruence]. }
  rewrite Hrun. cbn [fst snd].
  pose proof (call_fetchFunction_cache this k
     (with_console (console w1 ++ [log_line "Refreshing cache for" k]) w1)) as Hc.
  simpl in Hc.
  assert (Hother : forall k', ~ In k' (JsMap.keys pre) ->
            JsMap.get k' (cache w1) = JsMap.get k' (cache w)).
  { intros k' Hn.
    pose proof (refresh_entries_other_keys this pre w k' Hn) as H.
    now rewrite Hpre in H. }
  assert (Hk2 : JsMap.get k
            (cache (snd (call_fetchFunction this k
               (with_console (console w1 ++ [log_line "Refreshing cache for" k]) w1))))
            = Some e).
  { rewrite Hc, Hother by exact Hfirst. exact Hk. }
  split; [reflexivity|]. split; [exact Hk2|].
  split; [intros k' Hn; rewrite Hc; now apply Hother|].
  split.
  - unfold call_fetchFunction. now destruct (fetchFunction this).
  - intros t Ht. now rewrite (at_time_get_fresh this k e _ t Hk2 Ht).
Qed.

Lemma refresh_pass_stops_at_failure_witness :
  let old := mkEntry (JStr "D1") 0 in
  let w := mkWorld [("W", old); ("Y", old); ("Z", old)] 60000 [] [] in
  let fetcher : string -> Loader := fun key t =>
    if String.eqb key "Y" then (Threw (Error "Unexpected API response"), t + 100)
    else (Returned (JStr "D2"), t + 100) in
  let wired := mkTimeSeriesCache 600000 60000 (Some fetcher) in
  fst (refresh_pass wired w) = Threw (Error "Unexpected API response")
  /\ JsMap.get "Y" (cache (snd (refresh_pass wired w))) = Some old
  /\ fst (at_time 600000 (get wired "Y") (snd (refresh_pass wired w)))
     = Returned (JStr "D1").
Proof.
  cbv zeta.
  pose proof (refresh_pass_stops_at_failure
    (mkTimeSeriesCache 600000 60000
       (Some (fun key t =>
          if String.eqb key "Y" then (Threw (Error "Unexpected API response"), t + 100)
          else (Returned (JStr "D2"), t + 100))))
    (mkWorld [("W", mkEntry (JStr "D1") 0); ("Y", mkEntry (JStr "D1") 0);
              ("Z", mkEntry (JStr "D1") 0)] 60000 [] [])
    (mkWorld [("W", mkEntry (JStr "D2") 60100); ("Y", mkEntry (JStr "D1") 0);
              ("Z", mkEntry (JStr "D1") 0)] 60100 ["Refreshing cache for W"] ["W"])
    [("W", mkEntry (JStr "D1") 0)] [("Z", mkEntry (JStr "D1") 0)]
    "Y" (mkEntry (JStr "D1") 0) (Error "Unexpected API response")) as H.
  cbv zeta in H.
  destruct H as [H1 [H2 [_ [_ H3]]]].
  - reflexivity.
  - simpl. intros [H|[]]. discriminate H.
  - reflexivity.
  - unfold fresh. simpl. lia.
  - reflexivity.
  - split; [exact H1|]. split; [exact H2|].
    apply H3. unfold fresh. simpl. lia.
Defined.

(** ** The cache key of the route *)

(** C5, as the code has it.  The key is a function of the four parameters
    and every request that passes the parameter check gets one, but the key
    is not injective: joining with "-" lets a hyphen inside a parameter move
    the boundary, so symbol "BRK-B" with period "1min" and symbol "BRK" with
    period "B-1min" share a key over the same time range. *)
Theorem cacheKey_collision :
  (forall s p a b, nonempty (Some s) = true -> nonempty (Some p) = true ->
     nonempty (Some a) = true -> nonempty (Some b) = true ->
     request_key (Some s) (Some p) (Some a) (Some b) = Some (cacheKey s p a b))
  /\ request_key (Some "BRK-B") (Some "1min") (Some "2024-01-02") (Some "2024-01-03")
     = Some "BRK-B-1min-2024-01-02-2024-01-03"
  /\ request_key (Some "BRK") (Some "B-1min") (Some "2024-01-02") (Some "2024-01-03")
     = Some "BRK-B-1min-2024-01-02-2024-01-03"
  /\ ("BRK-B", "1min") <> ("BRK", "B-1min").
Proof.
  split; [|repeat split; discriminate].
  intros s p a b Hs Hp Ha Hb. unfold request_key.
  now rewrite Hs, Hp, Ha, Hb.
Qed.

Lemma cacheKey_collision_witness :
  request_key (Some "IBM") (Some "1min") (Some "t0") (Some "t1")
  = Some (cacheKey "IBM" "1min" "t0" "t1").
Proof. apply (proj1 cacheKey_collision); reflexivity. Defined.

(** ** Overlapping calls of [fetchData] *)

Section EventLoop.
Variable this : TimeSeriesCache.

(** Run without anything in between, the two halves are [fetchData]. *)
Lemma fetchData_split key loader w :
  fetchData this key loader w =
    match fetchData_begin this key w with
    | (Returned (Some v), w1) => (Returned v, w1)
    | (Returned None, w1) =>
        fetchData_resume key (fst (loader (now w1))) (snd (loader (now w1))) w1
    | (Threw err, w1) => (Threw err, w1)
    end.
Proof.
  unfold fetchData, fetchData_begin, fetchData_resume.
  rewrite !bind_run.
  destruct (get this key w) as [[v|err] w0]; [|reflexivity].
  destruct (truthy v); reflexivity.
Qed.

Lemma fetchData_begin_absent key w t :
  JsMap.get key (cache w) = None ->
  at_time t (fetchData_begin this key) w
  = (Returned None,
     with_upstream (upstream w ++ [key])
       (with_console (console w ++ [log_line "Cache miss for" key])
          (with_now t w))).
Proof.
  intros H. unfold at_time, fetchData_begin. unfold bind at 1.
  rewrite get_absent by exact H. simpl truthy. cbv iota.
  run. rewrite JsMapFacts.delete_absent by exact H. reflexivity.
Qed.

Lemma key_of_numbered key n : forall from id,
  (from <= id < from + n)%nat ->
  key_of id (map (fun i => (i, key)) (seq from n)) = Some key.
Proof.
  induction n as [|n IH]; intros from id H; [lia|].
  simpl. destruct (Nat.eqb id from) eqn:E; [reflexivity|].
  apply Nat.eqb_neq in E. apply IH. lia.
Qed.

(** Calls for a key without an entry, made one after the other before any
    load settles: each starts a load of its own and joins the waiting
    calls. *)
Lemma run_calls_absent key ts : forall l,
  JsMap.get key (cache (world l)) = None ->
  let l' := run this (map (fun t => Call t key) ts) l in
  cache (world l') = cache (world l)
  /\ upstream (world l') = upstream (world l) ++ repeat key (List.length ts)
  /\ waiting l'
     = waiting l ++ map (fun i => (i, key)) (seq (next_call l) (List.length ts))
  /\ results l' = results l.
Proof.
  induction ts as [|t ts IH]; intros l H; cbv zeta.
  - simpl. now rewrite !app_nil_r.
  - cbn [map run fold_left]. cbn [turn].
    rewrite (fetchData_begin_absent key (world l) t H).
    match goal with |- context [fold_left (turn this) _ ?l0] => set (l1 := l0) end.
    specialize (IH l1 H). cbv zeta in IH. unfold run in IH.
    destruct IH as [I1 [I2 [I3 I4]]].
    rewrite I1, I2, I3, I4. subst l1. cbn.
    repeat split; now rewrite <- app_assoc.
Qed.
End EventLoop.

(** C7 does not hold as stated.  Two callers ask for the key "X", which has
    no entry, before either load settles: both calls are suspended at their
    [await], the upstream was called twice, and when the loads settle with
    different payloads each caller gets the payload of its own load. *)
Lemma fetchData_stampede_counterexample :
  let cache0 := constructor None None in
  let both := run cache0 [Call 0 "X"; Call 1 "X"] (start (initial_world 0)) in
  let done := run cache0 [Settle 0 (Returned (JStr "D1")) 200;
                          Settle 1 (Returned (JStr "D2")) 250] both in
  waiting both = [(0%nat, "X"); (1%nat, "X")]
  /\ upstream (world both) = ["X"; "X"]
  /\ results done = [(0%nat, Returned (JStr "D1")); (1%nat, Returned (JStr "D2"))]
  /\ JsMap.get "X" (cache (world done)) = Some (mkEntry (JStr "D2") 250).
Proof. cbv zeta. repeat split. Qed.

Section Settling.
Variable this : TimeSeriesCache.
Variable key : string.

Lemma key_of_in id (wl : list (nat * string)) :
  (forall p, In p wl -> snd p = key) ->
  In id (map fst wl) -> key_of id wl = Some key.
Proof.
  induction wl as [|[i k0] wl IH]; simpl; [tauto|].
  intros Hall Hin. destruct (Nat.eqb id i) eqn:E.
  - f_equal. apply (Hall (i, k0)). now left.
  - apply Nat.eqb_neq in E. apply IH.
    + intros p Hp. apply Hall. now right.
    + destruct Hin as [Hin|Hin]; [congruence | exact Hin].
Qed.

Lemma still_waiting id0 i (wl : list (nat * string)) :
  In i (map fst wl) -> i <> id0 ->
  In i (map fst (filter (fun p => negb (Nat.eqb id0 (fst p))) wl)).
Proof.
  intros Hin Hne. apply in_map_iff in Hin as [p [Hp Hin]].
  apply in_map_iff. exists p. split; [exact Hp|].
  apply filter_In. split; [exact Hin|].
  apply negb_true_iff, Nat.eqb_neq. congruence.
Qed.

(** The continuation of a waiting call whose load is fulfilled. *)
Lemma turn_fulfilled l id d t :
  key_of id (waiting l) = Some key ->
  turn this l (Settle id (Returned d) t)
  = mkLoop
      (with_cache (JsMap.set key (mkEntry d t) (cache (world l)))
         (with_now t (world l)))
      (filter (fun p => negb (Nat.eqb id (fst p))) (waiting l))
      (results l ++ [(id, Returned d)]) (next_call l).
Proof. intros H. cbn [turn]. now rewrite H. Qed.

Lemma run_fulfilled settles : forall l,
  (forall p, In p (waiting l) -> snd p = key) ->
  NoDup (map (fun s => fst (fst s)) settles) ->
  (forall s, In s settles -> In (fst (fst s)) (map fst (waiting l))) ->
  let l' := run this (map fulfilled settles) l in
  results l'
  = results l ++ map (fun s => (fst (fst s), Returned (snd (fst s)))) settles
  /\ upstream (world l') = upstream (world l)
  /\ (forall p, In p (waiting l') -> snd p = key)
  /\ (forall i, In i (map fst (waiting l)) ->
        ~ In i (map (fun s => fst (fst s)) settles) ->
        In i (map fst (waiting l'))).
Proof.
  induction settles as [|[[id d] t] rest IH]; intros l Hkeys Hnd Hin; cbv zeta.
  - simpl. rewrite app_nil_r. auto.
  - cbn [map run fold_left].
    change (fulfilled (id, d, t)) with (Settle id (Returned d) t).
    rewrite turn_fulfilled
      by (apply key_of_in; [exact Hkeys | apply (Hin (id, d, t)); now left]).
    match goal with |- context [fold_left (turn this) _ ?l0] => set (l1 := l0) end.
    simpl in Hnd. inversion Hnd as [|? ? Hfresh Hrest]; subst.
    assert (Hkeys1 : forall p, In p (waiting l1) -> snd p = key).
    { intros p Hp. apply filter_In in Hp as [Hp _]. now apply Hkeys. }
    assert (Hin1 : forall s, In s rest -> In (fst (fst s)) (map fst (waiting l1))).
    { intros s Hs. apply still_waiting; [apply Hin; now right|].
      intros Heq. apply Hfresh. rewrite <- Heq.
      now apply (in_map (fun s => fst (fst s))) in Hs. }
    destruct (IH l1 Hkeys1 Hrest Hin1) as [I1 [I2 [I3 I4]]].
    unfold run in I1, I2, I3, I4.
    split; [|split; [|split]].
    + rewrite I1. subst l1. cbn [results]. now rewrite <- app_assoc.
    + rewrite I2. reflexivity.
    + exact I3.
    + intros i Hi Hnot. apply I4.
      * apply still_waiting; [exact Hi|]. intros ->. apply Hnot. now left.
      * intros Hr. apply Hnot. now right.
Qed.
End Settling.

(** C7, amended.  Calls of [fetchData] for a key that has no entry, made
    before any of their loads settles, do not share a load: every one of
    them calls its loader, so [n] such calls start [n] upstream fetches and
    leave [n] calls waiting.  When loads of theirs are then fulfilled, each
    once and in any order, every caller gets the payload of its own load,
    every load is stored under the key as it settles without any further
    fetch, and the entry left is that of the load that settled last,
    stamped with the time at which it settled. *)
Theorem fetchData_calls_do_not_coalesce
  (this : TimeSeriesCache) (w : World) (key : string) (ts : list Z) :
  JsMap.get key (cache w) = None ->
  let l := run this (map (fun t => Call t key) ts) (start w) in
  upstream (world l) = upstream w ++ repeat key (List.length ts)
  /\ waiting l = map (fun i => (i, key)) (seq 0 (List.length ts))
  /\ results l = []
  /\ (forall earlier id d t,
        NoDup (map (fun s => fst (fst s)) (earlier ++ [(id, d, t)])) ->
        Forall (fun s => (fst (fst s) < List.length ts)%nat)
          (earlier ++ [(id, d, t)]) ->
        let l' := run this (map fulfilled (earlier ++ [(id, d, t)])) l in
        results l'
        = map (fun s => (fst (fst s), Returned (snd (fst s))))
            (earlier ++ [(id, d, t)])
        /\ JsMap.get key (cache (world l')) = Some (mkEntry d t)
        /\ upstream (world l') = upstream (world l)).
Proof.
  intros H. cbv zeta.
  destruct (run_calls_absent this key ts (start w) H) as [I1 [I2 [I3 I4]]].
  simpl in I1, I2, I3, I4.
  split; [exact I2|]. split; [exact I3|]. split; [exact I4|].
  intros earlier id d t Hnd Hall.
  set (l := run this (map (fun t0 => Call t0 key) ts) (start w)) in *.
  assert (Hkeys : forall p, In p (waiting l) -> snd p = key).
  { intros p Hp. rewrite I3 in Hp. apply in_map_iff in Hp as [i [<- _]].
    reflexivity. }
  assert (Hids : forall i, (i < List.length ts)%nat -> In i (map fst (waiting l))).
  { intros i Hi. rewrite I3, map_map. cbn [fst]. rewrite map_id.
    apply in_seq. lia. }
  rewrite map_app in Hnd. apply NoDup_remove in Hnd as [Hnd Hnew].
  rewrite app_nil_r in Hnd, Hnew.
  apply Forall_app in Hall as [Hall Hlast].
  inversion Hlast as [|? ? Hid _]; subst. cbn [fst] in Hid.
  assert (Hin : forall s, In s earlier -> In (fst (fst s)) (map fst (waiting l))).
  { intros s Hs. apply Hids. rewrite Forall_forall in Hall. now apply Hall. }
  destruct (run_fulfilled this key earlier l Hkeys Hnd Hin) as [R1 [R2 [R3 R4]]].
  set (mid := run this (map fulfilled earlier) l) in *.
  assert (Hrun : run this (map fulfilled (earlier ++ [(id, d, t)])) l
                 = mkLoop
                     (with_cache (JsMap.set key (mkEntry d t) (cache (world mid)))
                        (with_now t (world mid)))
                     (filter (fun p => negb (Nat.eqb id (fst p))) (waiting mid))
                     (results mid ++ [(id, Returned d)]) (next_call mid)).
  { rewrite map_app. unfold run. rewrite fold_left_app. cbn [map fold_left].
    change (fulfilled (id, d, t)) with (Settle id (Returned d) t).
    apply turn_fulfilled.
    apply key_of_in; [exact R3 | apply R4; [now apply Hids | exact Hnew]]. }
  rewrite Hrun. cbn [results world]. rewrite R1, I4. cbn [app].
  split; [|split].
  - rewrite map_app. reflexivity.
  - apply JsMapFacts.get_set_same.
  - simpl. exact R2.
Qed.

Lemma fetchData_calls_do_not_coalesce_witness :
  let cache0 := constructor None None in
  let l := run cache0 [Call 0 "X"; Call 1 "X"; Call 2 "X"] (start (initial_world 0)) in
  let l' := run cache0 (map fulfilled [(1%nat, JStr "D2", 200); (0%nat, JStr "D1", 300)]) l in
  upstream (world l) = ["X"; "X"; "X"]
  /\ waiting l = [(0%nat, "X"); (1%nat, "X"); (2%nat, "X")]
  /\ results l' = [(1%nat, Returned (JStr "D2")); (0%nat, Returned (JStr "D1"))]
  /\ JsMap.get "X" (cache (world l')) = Some (mkEntry (JStr "D1") 300).
Proof.
  cbv zeta.
  destruct (fetchData_calls_do_not_coalesce (constructor None None)
              (initial_world 0) "X" [0; 1; 2] eq_refl) as [H1 [H2 [_ H4]]].
  split; [exact H1|]. split; [exact H2|].
  destruct (H4 [(1%nat, JStr "D2", 200)] 0%nat (JStr "D1") 300) as [R1 [R2 _]].
  - repeat constructor; simpl; intuition discriminate.
  - repeat constructor; simpl; lia.
  - split; [exact R1 | exact R2].
Defined.


(** ** Further properties of [set], [get] and [fetchData] *)

Section MoreMethodFacts.
Variable this : TimeSeriesCache.
Implicit Types (w : World) (k : string) (e : Entry).

(** [get] either leaves the Map alone or removes the key it was asked
    for. *)
Lemma get_cases k w :
  exists v c, get this k w = (Returned v, with_cache c w)
    /\ (c = cache w \/ c = JsMap.delete k (cache w)).
Proof.
  destruct (JsMap.get k (cache w)) as [e|] eqn:E.
  - destruct (Z_le_gt_dec (now w - timestamp e) (expirationDuration this)).
    + exists (data e), (cache w). split; [|now left].
      rewrite (get_fresh this k e w E); auto. now destruct w.
    + eexists _, _. split; [|now right].
      apply (get_stale this k e w E). unfold fresh. lia.
  - eexists _, _. split; [|now right]. now apply get_absent.
Qed.
End MoreMethodFacts.

(** X1. Writing then reading: after [set(k, d)] at clock reading [t0],
    [get(k)] at reading [t] returns [d] and leaves the world alone whenever
    [t - t0] is at most the TTL, the bound included; past the bound it
    returns [null] and removes the entry.  The entries of the other keys are
    what they were before the [set]. *)
Theorem set_then_get (this : TimeSeriesCache) (k : string) (d : jsval) (w : World) (t : Z) :
  let w1 := snd (set k d w) in
  (t - now w <= expirationDuration this ->
     at_time t (get this k) w1 = (Returned d, with_now t w1))
  /\ (t - now w > expirationDuration this ->
      fst (at_time t (get this k) w1) = Returned JNull
      /\ JsMap.get k (cache (snd (at_time t (get this k) w1))) = None)
  /\ (forall k', k' <> k -> JsMap.get k' (cache w1) = JsMap.get k' (cache w)).
Proof.
  cbv zeta. rewrite set_eq. cbn [snd].
  set (w1 := with_cache (JsMap.set k (mkEntry d (now w)) (cache w)) w).
  assert (H1 : JsMap.get k (cache w1) = Some (mkEntry d (now w)))
    by apply JsMapFacts.get_set_same.
  split; [|split].
  - intros H. now apply (at_time_get_fresh this k (mkEntry d (now w)) w1 t H1).
  - intros H.
    rewrite (at_time_get_stale this k (mkEntry d (now w)) w1 t H1)
      by (unfold fresh; simpl; lia).
    split; [reflexivity|]. apply JsMapFacts.get_delete_same.
  - intros k' Hne. now apply JsMapFacts.get_set_other.
Qed.

Lemma set_then_get_witness :
  let cache0 := constructor None None in
  let w1 := snd (set "k" (JStr "D1") (initial_world 1000)) in
  at_time 601000 (get cache0 "k") w1 = (Returned (JStr "D1"), with_now 601000 w1)
  /\ fst (at_time 601001 (get cache0 "k") w1) = Returned JNull.
Proof.
  cbv zeta.
  pose proof (set_then_get (constructor None None) "k" (JStr "D1") (initial_world 1000)) as H.
  split.
  - apply (proj1 (H 601000)). simpl. lia.
  - apply (proj1 (proj2 (H 601001))). simpl. lia.
Defined.

(** X2. [fetchData(k, loader)] is confined to its key: whatever the state
    of the Map and whatever the loader does, the entry of every other key is
    afterwards what it was, at most one upstream fetch was started, and it
    was started for [k]. *)
Theorem fetchData_touches_only_its_key
  (this : TimeSeriesCache) (k : string) (loader : Loader) (w : World) :
  let w' := snd (fetchData this k loader w) in
  (forall k', k' <> k -> JsMap.get k' (cache w') = JsMap.get k' (cache w))
  /\ (upstream w' = upstream w \/ upstream w' = upstream w ++ [k]).
Proof.
  cbv zeta. destruct (get_cases this k w) as [v [c [Hget Hc]]].
  rewrite (fetchData_eq this k loader w v c Hget).
  assert (Hother : forall k', k' <> k -> JsMap.get k' c = JsMap.get k' (cache w)).
  { intros k' Hne. destruct Hc as [-> | ->]; [reflexivity|].
    now apply JsMapFacts.get_delete_other. }
  destruct (truthy v); cbv zeta.
  - split; [exact Hother | now left].
  - destruct (fst (loader (now w))); cbn.
    + split; [|now right]. intros k' Hne.
      rewrite JsMapFacts.get_set_other by exact Hne. now apply Hother.
    + split; [exact Hother | now right].
Qed.

(** X3. Loading once is enough: when [fetchData] finds no entry or an
    expired one and its loader is fulfilled with a truthy payload at clock
    reading [t1], a second [fetchData] for the same key at any reading
    within the TTL of [t1] returns that payload without calling its own
    loader, so the two calls together started one upstream fetch. *)
Theorem fetchData_second_call_hits
  (this : TimeSeriesCache) (k : string) (first second : Loader)
  (w : World) (d : jsval) (t1 t2 : Z) :
  absent_or_expired this k w ->
  first (now w) = (Returned d, t1) ->
  truthy d = true ->
  t2 - t1 <= expirationDuration this ->
  let w1 := snd (fetchData this k first w) in
  let r2 := at_time t2 (fetchData this k second) w1 in
  fst (fetchData this k first w) = Returned d
  /\ fst r2 = Returned d
  /\ upstream (snd r2) = upstream w ++ [k]
  /\ JsMap.get k (cache (snd r2)) = Some (mkEntry d t1).
Proof.
  intros Hmiss Hfirst Hd Ht. cbv zeta.
  rewrite (fetchData_after_eviction this k first w Hmiss). cbv zeta.
  rewrite Hfirst. cbn [fst snd].
  match goal with |- context [at_time t2 _ ?w0] => set (w1 := w0) end.
  assert (H1 : JsMap.get k (cache (with_now t2 w1)) = Some (mkEntry d t1))
    by apply JsMapFacts.get_set_same.
  unfold at_time.
  rewrite (fetchData_on_fresh this k second (with_now t2 w1) (mkEntry d t1) H1)
    by (unfold fresh; simpl; lia).
  cbn [data]. rewrite Hd. cbn [fst snd].
  repeat split. exact H1.
Qed.

Lemma fetchData_second_call_hits_witness :
  let cache0 := constructor None None in
  let first : Loader := fun t => (Returned (JArray []), t + 250) in
  let second : Loader := fun t => (Threw (Error "Unexpected API response"), t + 250) in
  let w1 := snd (fetchData cache0 "k" first (initial_world 0)) in
  fst (at_time 600250 (fetchData cache0 "k" second) w1) = Returned (JArray [])
  /\ upstream (snd (at_time 600250 (fetchData cache0 "k" second) w1)) = ["k"].
Proof.
  cbv zeta.
  pose proof (fetchData_second_call_hits (constructor None None) "k"
                (fun t => (Returned (JArray []), t + 250))
                (fun t => (Threw (Error "Unexpected API response"), t + 250))
                (initial_world 0) (JArray []) 250 600250) as H.
  cbv zeta in H.
  destruct H as [_ [H2 [H3 _]]].
  - left. reflexivity.
  - reflexivity.
  - reflexivity.
  - simpl. lia.
  - split; [exact H2 | exact H3].
Defined.

(** ** Further properties of the refresh pass *)

Section MoreMapFacts.
Context {V : Type}.
Implicit Types (m : JsMap.t V) (k : string) (v : V).

Lemma keys_set_present k v m :
  In k (JsMap.keys m) -> JsMap.keys (JsMap.set k v m) = JsMap.keys m.
Proof.
  unfold JsMap.keys. induction m as [|[k0 v0] m IH]; simpl; [tauto|].
  intros H. destruct (String.eqb k k0) eqn:E; simpl; [reflexivity|].
  apply String.eqb_neq in E. f_equal. apply IH.
  destruct H as [H|H]; [congruence | exact H].
Qed.

Lemma keys_set_absent k v m :
  ~ In k (JsMap.keys m) -> JsMap.keys (JsMap.set k v m) = JsMap.keys m ++ [k].
Proof.
  unfold JsMap.keys. induction m as [|[k0 v0] m IH]; simpl; [reflexivity|].
  intros H. destruct (String.eqb k k0) eqn:E; simpl.
  - apply String.eqb_eq in E. subst k0. tauto.
  - f_equal. apply IH. tauto.
Qed.

Lemma keys_delete_subset k k' m :
  In k' (JsMap.keys (JsMap.delete k m)) -> In k' (JsMap.keys m).
Proof.
  unfold JsMap.keys. induction m as [|[k0 v0] m IH]; simpl; [tauto|].
  destruct (String.eqb k k0); simpl; intuition.
Qed.

Lemma NoDup_keys_delete k m :
  NoDup (JsMap.keys m) -> NoDup (JsMap.keys (JsMap.delete k m)).
Proof.
  induction m as [|[k0 v0] m IH]; simpl; [auto|].
  intros H. inversion H as [|? ? Hnot Hrest]; subst.
  destruct (String.eqb k k0); [now apply IH|].
  unfold JsMap.keys in *. simpl. constructor; [|now apply IH].
  intros Hin. apply Hnot. now apply (keys_delete_subset k).
Qed.

Lemma NoDup_keys_set k v m :
  NoDup (JsMap.keys m) -> NoDup (JsMap.keys (JsMap.set k v m)).
Proof.
  intros H. destruct (in_dec string_dec k (JsMap.keys m)) as [Hin|Hnot].
  - now rewrite keys_set_present.
  - rewrite keys_set_absent by exact Hnot.
    apply NoDup_app; [exact H | repeat constructor; simpl; tauto |].
    intros x Hx [<-|[]]. contradiction.
Qed.

Lemma get_some_in_keys k v m : JsMap.get k m = Some v -> In k (JsMap.keys m).
Proof.
  unfold JsMap.keys. induction m as [|[k0 v0] m IH]; simpl; [discriminate|].
  destruct (String.eqb k k0) eqn:E.
  - apply String.eqb_eq in E. now left.
  - intros H. right. now apply IH.
Qed.

(** In a Map, a key has one entry. *)
Lemma NoDup_keys_entry k v v' m :
  NoDup (JsMap.keys m) -> JsMap.get k m = Some v -> In (k, v') m -> v' = v.
Proof.
  unfold JsMap.keys. induction m as [|[k0 v0] m IH]; simpl; [discriminate|].
  intros Hnd Hget Hin. inversion Hnd as [|? ? Hnot Hrest]; subst.
  destruct (String.eqb k k0) eqn:E.
  - apply String.eqb_eq in E. subst k0. injection Hget as ->.
    destruct Hin as [Hin|Hin]; [congruence|].
    exfalso. apply Hnot. now apply (in_map fst) in Hin.
  - apply String.eqb_neq in E.
    destruct Hin as [Hin|Hin]; [congruence|]. now apply IH.
Qed.
End MoreMapFacts.

Section MoreRefreshFacts.
Variable this : TimeSeriesCache.
Implicit Types (w : World) (k : string) (e : Entry).

Lemma refresh_entries_keeps_keys entries : forall w,
  incl (JsMap.keys entries) (JsMap.keys (cache w)) ->
  JsMap.keys (cache (snd (refresh_entries this entries w))) = JsMap.keys (cache w).
Proof.
  induction entries as [|[k e] rest IH]; intros w Hincl; [reflexivity|].
  assert (Hk : In k (JsMap.keys (cache w))) by (apply Hincl; now left).
  assert (Hrest : incl (JsMap.keys rest) (JsMap.keys (cache w)))
    by (intros x Hx; apply Hincl; now right).
  rewrite refresh_entries_cons.
  destruct (now w - timestamp e >? expirationDuration this); [now apply IH|].
  pose proof (call_fetchFunction_cache this k
    (with_console (console w ++ [log_line "Refreshing cache for" k]) w)) as Hc.
  destruct (call_fetchFunction this k _) as [[d|err] w2]; simpl in Hc.
  - assert (Hkeys : JsMap.keys (JsMap.set k (mkEntry d (now w2)) (cache w2))
                    = JsMap.keys (cache w))
      by (rewrite Hc; now apply keys_set_present).
    rewrite IH; simpl; rewrite Hkeys; auto.
  - simpl. now rewrite Hc.
Qed.

Lemma call_fetchFunction_effects k w :
  fetches_take_time this ->
  let w' := snd (call_fetchFunction this k w) in
  now w <= now w'
  /\ (upstream w' = upstream w \/ upstream w' = upstream w ++ [k])
  /\ console w' = console w.
Proof.
  unfold fetches_take_time, call_fetchFunction.
  destruct (fetchFunction this) as [f|]; intros H; cbv zeta.
  - run. repeat split; [apply H | now right].
  - simpl. repeat split; [lia | now left].
Qed.

Lemma refresh_entries_skips_expired k e entries : forall w,
  fetches_take_time this ->
  (forall e0, In (k, e0) entries -> e0 = e) ->
  JsMap.get k (cache w) = Some e ->
  ~ fresh this (now w) e ->
  let w' := snd (refresh_entries this entries w) in
  JsMap.get k (cache w') = Some e
  /\ exists started, upstream w' = upstream w ++ started /\ ~ In k started.
Proof.
  induction entries as [|[k0 e0] rest IH]; intros w Hmono Hone Hget Hstale;
    cbv zeta.
  - simpl. split; [exact Hget|]. exists []. now rewrite app_nil_r.
  - assert (Hrest : forall e1, In (k, e1) rest -> e1 = e)
      by (intros e1 H1; apply Hone; now right).
    rewrite refresh_entries_cons.
    destruct (now w - timestamp e0 >? expirationDuration this) eqn:Eexp;
      [now apply IH|].
    assert (Hne : k <> k0).
    { intros ->. assert (e0 = e) by (apply Hone; now left). subst e0.
      apply Hstale. unfold fresh. rewrite Z.gtb_ltb in Eexp.
      apply Z.ltb_ge in Eexp. exact Eexp. }
    set (w1 := with_console (console w ++ [log_line "Refreshing cache for" k0]) w).
    pose proof (call_fetchFunction_cache this k0 w1) as Hc.
    destruct (call_fetchFunction_effects k0 w1 Hmono) as [Hnow [Hup _]].
    destruct (call_fetchFunction this k0 w1) as [[d|err] w2];
      simpl in Hc, Hnow, Hup.
    + set (w3 := with_cache (JsMap.set k0 (mkEntry d (now w2)) (cache w2)) w2).
      assert (Hget3 : JsMap.get k (cache w3) = Some e).
      { simpl. rewrite JsMapFacts.get_set_other by exact Hne. now rewrite Hc. }
      assert (Hstale3 : ~ fresh this (now w3) e)
        by (unfold fresh in *; simpl; lia).
      destruct (IH w3 Hmono Hrest Hget3 Hstale3) as [I1 [started [I2 I3]]].
      split; [exact I1|]. simpl in I2.
      destruct Hup as [Hup|Hup]; rewrite Hup in I2.
      * now exists started.
      * exists (k0 :: started). rewrite I2, <- app_assoc. split; [reflexivity|].
        simpl. intros [H|H]; [congruence | contradiction].
    + simpl. rewrite Hc. split; [exact Hget|].
      destruct Hup as [Hup|Hup]; rewrite Hup.
      * exists []. now rewrite app_nil_r.
      * exists [k0]. split; [reflexivity|]. simpl. intros [H|[]]. congruence.
Qed.

Lemma refresh_entries_all_expired entries : forall w,
  Forall (fun p => ~ fresh this (now w) (snd p)) entries ->
  refresh_entries this entries w = (Returned tt, w).
Proof.
  induction entries as [|[k e] rest IH]; intros w Hall; [reflexivity|].
  inversion Hall as [|? ? Hhead Hrest]; subst. simpl in Hhead.
  rewrite refresh_entries_cons.
  replace (now w - timestamp e >? expirationDuration this) with true;
    [now apply IH|].
  symmetry. rewrite Z.gtb_ltb. apply Z.ltb_lt. unfold fresh in Hhead. lia.
Qed.

Lemma refresh_entries_undefined_rejects entries : forall w,
  fetchFunction this = None ->
  Exists (fun p => fresh this (now w) (snd p)) entries ->
  let r := refresh_entries this entries w in
  fst r = Threw (TypeError "this.fetchFunction is not a function")
  /\ exists k e, In (k, e) entries /\ fresh this (now w) e
       /\ console (snd r) = console w ++ [log_line "Refreshing cache for" k].
Proof.
  induction entries as [|[k e] rest IH]; intros w Hundef Hex; cbv zeta.
  - inversion Hex.
  - rewrite refresh_entries_cons.
    destruct (now w - timestamp e >? expirationDuration this) eqn:Eexp.
    + assert (Hrest : Exists (fun p => fresh this (now w) (snd p)) rest).
      { inversion Hex as [? ? Hhead|? ? Htail]; subst; [|exact Htail].
        exfalso. simpl in Hhead. unfold fresh in Hhead.
        rewrite Z.gtb_ltb in Eexp. apply Z.ltb_lt in Eexp. lia. }
      destruct (IH w Hundef Hrest) as [I1 [k1 [e1 [I2 [I3 I4]]]]].
      split; [exact I1|]. exists k1, e1. repeat split; auto. now right.
    + unfold call_fetchFunction. rewrite Hundef. simpl.
      split; [reflexivity|]. exists k, e. repeat split; [now left|].
      unfold fresh. rewrite Z.gtb_ltb in Eexp. now apply Z.ltb_ge in Eexp.
Qed.
End MoreRefreshFacts.

Lemma refresh_pass_keeps_keys_eq (this : TimeSeriesCache) (w : World) :
  JsMap.keys (cache (snd (refresh_pass this w))) = JsMap.keys (cache w).
Proof.
  unfold refresh_pass, cache_entries. rewrite bind_run.
  apply refresh_entries_keeps_keys. unfold JsMap.entries. apply incl_refl.
Qed.

(** X4. A refresh pass never adds a key and never removes one, expired or
    not: the keys of the Map, in order, are the same after the pass as
    before it, whether or not a fetcher is installed and whatever its
    fetches return. *)
Theorem refresh_pass_keeps_keys (this : TimeSeriesCache) (w : World) :
  JsMap.keys (cache (snd (refresh_pass this w))) = JsMap.keys (cache w)
  /\ List.length (cache (snd (refresh_pass this w))) = List.length (cache w).
Proof.
  pose proof (refresh_pass_keeps_keys_eq this w) as H. split; [exact H|].
  apply (f_equal (@List.length string)) in H. unfold JsMap.keys in H.
  now rewrite !length_map in H.
Qed.

(** X5. A refresh pass leaves an entry that has already expired when the
    pass starts exactly as it is, and starts no fetch for its key, provided
    the clock does not run backwards while a fetch is awaited. *)
Theorem refresh_pass_skips_expired
  (this : TimeSeriesCache) (w : World) (k : string) (e : Entry) :
  NoDup (JsMap.keys (cache w)) ->
  fetches_take_time this ->
  JsMap.get k (cache w) = Some e ->
  ~ fresh this (now w) e ->
  let w' := snd (refresh_pass this w) in
  JsMap.get k (cache w') = Some e
  /\ exists started, upstream w' = upstream w ++ started /\ ~ In k started.
Proof.
  intros Hnd Hmono Hget Hstale. cbv zeta.
  unfold refresh_pass, cache_entries. rewrite bind_run.
  apply refresh_entries_skips_expired; auto.
  intros e0 Hin. now apply (NoDup_keys_entry k e e0 (cache w)).
Qed.

Lemma refresh_pass_skips_expired_witness :
  let wired := mkTimeSeriesCache 600000 60000
                 (Some (fun _ t => (Returned (JStr "D2"), t + 100))) in
  let w := mkWorld [("k", mkEntry (JStr "D1") 60000); ("old", mkEntry (JStr "D0") 0)]
             600001 [] [] in
  JsMap.get "old" (cache (snd (refresh_pass wired w))) = Some (mkEntry (JStr "D0") 0).
Proof.
  cbv zeta.
  refine (proj1 (refresh_pass_skips_expired
    (mkTimeSeriesCache 600000 60000 (Some (fun _ t => (Returned (JStr "D2"), t + 100))))
    (mkWorld [("k", mkEntry (JStr "D1") 60000); ("old", mkEntry (JStr "D0") 0)]
       600001 [] [])
    "old" (mkEntry (JStr "D0") 0) _ _ _ _)).
  - repeat constructor; simpl; intuition discriminate.
  - unfold fetches_take_time. simpl. intros _ t. lia.
  - reflexivity.
  - unfold fresh. simpl. lia.
Defined.

(** X6. When no entry of the Map is within its TTL at the firing of the
    timer (an empty Map included), the pass does nothing at all: it returns
    normally and the world is untouched.  On an object without
    [fetchFunction], as the constructor leaves it, the pass is rejected with
    a TypeError as soon as some entry is within its TTL, after printing one
    line for such an entry. *)
Theorem refresh_pass_idle_or_rejected (this : TimeSeriesCache) (w : World) :
  (Forall (fun p => ~ fresh this (now w) (snd p)) (cache w) ->
     refresh_pass this w = (Returned tt, w))
  /\ (fetchFunction this = None ->
      Exists (fun p => fresh this (now w) (snd p)) (cache w) ->
      fst (refresh_pass this w)
      = Threw (TypeError "this.fetchFunction is not a function")
      /\ exists k e, In (k, e) (cache w) /\ fresh this (now w) e
           /\ console (snd (refresh_pass this w))
              = console w ++ [log_line "Refreshing cache for" k]).
Proof.
  unfold refresh_pass, cache_entries. rewrite bind_run. split.
  - intros H. now apply refresh_entries_all_expired.
  - intros Hundef Hex.
    now apply (refresh_entries_undefined_rejects this (cache w) w Hundef Hex).
Qed.

Lemma refresh_pass_idle_or_rejected_witness :
  let cache0 := constructor None None in
  let idle := mkWorld [("old", mkEntry (JStr "D0") 0)] 600001 [] [] in
  let busy := with_now 600000 idle in
  refresh_pass cache0 idle = (Returned tt, idle)
  /\ fst (refresh_pass cache0 busy)
     = Threw (TypeError "this.fetchFunction is not a function").
Proof.
  cbv zeta. split.
  - apply (proj1 (refresh_pass_idle_or_rejected (constructor None None)
                    (mkWorld [("old", mkEntry (JStr "D0") 0)] 600001 [] []))).
    repeat constructor. unfold fresh. simpl. lia.
  - apply (proj2 (refresh_pass_idle_or_rejected (constructor None None)
                    (with_now 600000 (mkWorld [("old", mkEntry (JStr "D0") 0)] 600001 [] [])))).
    + reflexivity.
    + apply Exists_cons_hd. unfold fresh. simpl. lia.
Defined.

(** ** Further properties of the cache key *)

Lemma split_at_first_hyphen : forall x x' r r',
  hyphen_free x = true -> hyphen_free x' = true ->
  String.append x (String "-" r) = String.append x' (String "-" r') ->
  x = x' /\ r = r'.
Proof.
  induction x as [|c x IH]; intros [|c' x'] r r' Hx Hx' Heq; simpl in *.
  - injection Heq as ->. now split.
  - injection Heq as <- _. now rewrite Ascii.eqb_refl in Hx'.
  - injection Heq as -> _. now rewrite Ascii.eqb_refl in Hx.
  - injection Heq as -> Heq.
    apply andb_true_iff in Hx as [_ Hx]. apply andb_true_iff in Hx' as [_ Hx'].
    destruct (IH x' r r' Hx Hx' Heq) as [-> ->]. now split.
Qed.

(** X7. Among requests whose four parameters each arrive as a plain
    string, the cache key is injective as long as symbol, period and start
    contain no hyphen: equal keys mean equal symbol, period, start and end
    (the end may contain hyphens).  A parameter given twice arrives as an
    array, is written into the key with a comma between its elements, and
    so shares its key with the single string of that text. *)
Theorem cacheKey_injective_without_hyphens :
  (forall s p a b s' p' a' b' : string,
      hyphen_free s = true -> hyphen_free p = true -> hyphen_free a = true ->
      hyphen_free s' = true -> hyphen_free p' = true -> hyphen_free a' = true ->
      query_key (QString s) (QString p) (QString a) (QString b)
      = query_key (QString s') (QString p') (QString a') (QString b') ->
      s = s' /\ p = p' /\ a = a' /\ b = b')
  /\ (forall (x y : string) (period start end_ : qvalue),
        query_key (QArray [QString x; QString y]) period start end_
        = query_key (QString (String.append x (String.append "," y)))
            period start end_).
Proof.
  split.
  - intros s p a b s' p' a' b' Hs Hp Ha Hs' Hp' Ha' Heq.
    unfold query_key, cacheKey in Heq. cbn [template] in Heq.
    change (String.append "-" ?x) with (String "-" x) in Heq.
    apply (split_at_first_hyphen s s') in Heq as [-> Heq]; auto.
    apply (split_at_first_hyphen p p') in Heq as [-> Heq]; auto.
    apply (split_at_first_hyphen a a') in Heq as [-> ->]; auto.
  - intros x y period start end_. unfold query_key. reflexivity.
Qed.

Lemma cacheKey_injective_without_hyphens_witness :
  "IBM" = "IBM" /\ "1min" = "1min" /\ "20240102" = "20240102"
  /\ "2024-01-03" = "2024-01-03".
Proof.
  apply (proj1 cacheKey_injective_without_hyphens
           "IBM" "1min" "20240102" "2024-01-03"
           "IBM" "1min" "20240102" "2024-01-03"); reflexivity.
Defined.

(** ** Properties of [fetchDataFromAPI] and of the route *)

Section ServerFacts.
Import Server.
Variable axios_get : string -> list (string * string) -> Loader.
Variable parseFloat : jsval -> jsval.

Local Abbreviation api := (fetchDataFromAPI axios_get parseFloat).
Local Abbreviation route := (timeseries axios_get parseFloat).
Local Abbreviation request symbol period :=
  (axios_get "https://www.alphavantage.co/query"
     [("function", "TIME_SERIES_INTRADAY"); ("symbol", symbol);
      ("interval", period); ("apikey", "3KGZSQDF3FNO45FI")]).

Lemma point_shape time values p :
  point parseFloat time values = Returned p ->
  read_property p "time" = Returned (JStr time).
Proof.
  unfold point.
  destruct (read_property values "1. open"); [|discriminate]. simpl.
  destruct (read_property values "2. high"); [|discriminate]. simpl.
  destruct (read_property values "3. low"); [|discriminate]. simpl.
  destruct (read_property values "4. close"); [|discriminate]. simpl.
  now intros [= <-].
Qed.

Lemma point_rejection time values err :
  point parseFloat time values = Threw err ->
  (values = JNull \/ values = JUndefined) /\ exists msg, err = TypeError msg.
Proof.
  destruct values; simpl; try discriminate; intros [= <-]; eauto.
Qed.

Lemma map_points_times entries : forall points,
  map_points parseFloat entries = Returned points ->
  map (fun p => read_property p "time") points
  = map (fun en => Returned (JStr (fst en))) entries.
Proof.
  induction entries as [|[time values] rest IH]; intros points; simpl.
  - now intros [= <-].
  - destruct (point parseFloat time values) as [p|] eqn:Ep; [|discriminate].
    simpl. destruct (map_points parseFloat rest) as [ps|]; [|discriminate].
    simpl. intros [= <-]. simpl. rewrite (point_shape _ _ _ Ep).
    f_equal. now apply IH.
Qed.

Lemma map_points_rejection entries : forall err,
  map_points parseFloat entries = Threw err ->
  (exists time values, In (time, values) entries
     /\ (values = JNull \/ values = JUndefined))
  /\ exists msg, err = TypeError msg.
Proof.
  induction entries as [|[time values] rest IH]; intros err; simpl;
    [discriminate|].
  destruct (point parseFloat time values) as [p|e0] eqn:Ep; simpl.
  - destruct (map_points parseFloat rest) as [ps|e1]; simpl; [discriminate|].
    intros [= <-]. destruct (IH e1 eq_refl) as [[t [v [Hin Hv]]] Hmsg].
    split; [|exact Hmsg]. exists t, v. split; [now right | exact Hv].
  - intros [= <-]. destruct (point_rejection _ _ _ Ep) as [Hv Hmsg].
    split; [|exact Hmsg]. exists time, values. split; [now left | exact Hv].
Qed.

Lemma fetchDataFromAPI_payload_truthy symbol period startTime endTime t0 payload :
  fst (api symbol period startTime endTime t0) = Returned payload ->
  truthy payload = true.
Proof.
  unfold fetchDataFromAPI. cbv zeta. cbn [fst].
  destruct (fst (request symbol period t0)) as [response_data|]; [|discriminate].
  simpl. unfold process_response.
  destruct (read_property response_data "Time Series (1min)") as [series|];
    [|discriminate].
  simpl. destruct (truthy series); [|discriminate].
  destruct (Object_entries series) as [entries|]; [|discriminate].
  simpl. destruct (map_points parseFloat entries) as [points|]; [|discriminate].
  simpl. now intros [= <-].
Qed.

(** X8. What [fetchDataFromAPI] is fulfilled with is always an array, hence
    truthy even when it is empty: the response carried a truthy
    "Time Series (1min)" property, and the array has one point per entry of
    that property, in the same order, each carrying the key of its entry as
    its time. *)
Theorem fetchDataFromAPI_fulfils_with_array
  (symbol period startTime endTime : string) (t0 : Z) (payload : jsval) :
  fst (api symbol period startTime endTime t0) = Returned payload ->
  truthy payload = true
  /\ exists response_data series entries points,
       fst (request symbol period t0) = Returned response_data
       /\ read_property response_data "Time Series (1min)" = Returned series
       /\ truthy series = true
       /\ Object_entries series = Returned entries
       /\ payload = JArray points
       /\ map (fun p => read_property p "time") points
          = map (fun en => Returned (JStr (fst en))) entries.
Proof.
  unfold fetchDataFromAPI. cbv zeta. cbn [fst].
  destruct (fst (request symbol period t0)) as [response_data|]; [|discriminate].
  simpl. unfold process_response.
  destruct (read_property response_data "Time Series (1min)") as [series|] eqn:Es;
    [|discriminate].
  simpl. destruct (truthy series) eqn:Et; [|discriminate].
  destruct (Object_entries series) as [entries|] eqn:Ee; [|discriminate].
  simpl. destruct (map_points parseFloat entries) as [points|] eqn:Ep;
    [|discriminate].
  simpl. intros [= <-]. split; [reflexivity|].
  exists response_data, series, entries, points.
  repeat split; auto. now apply map_points_times.
Qed.

(** X9. How [fetchDataFromAPI] fails.  A rejected request is passed on
    unchanged.  A response without a truthy "Time Series (1min)" property
    (an object lacking it, a string, a number, an array) is answered with
    the error "Unexpected API response".  Every other failure is a
    TypeError, raised because the response itself, or an entry of the
    series, is [null] or [undefined].  In all cases the function settles when
    the request does. *)
Theorem fetchDataFromAPI_rejections
  (symbol period startTime endTime : string) (t0 : Z) :
  (forall err, fst (request symbol period t0) = Threw err ->
     fst (api symbol period startTime endTime t0) = Threw err)
  /\ (forall response_data series,
        fst (request symbol period t0) = Returned response_data ->
        read_property response_data "Time Series (1min)" = Returned series ->
        truthy series = false ->
        fst (api symbol period startTime endTime t0)
        = Threw (Error "Unexpected API response"))
  /\ (forall err,
        fst (api symbol period startTime endTime t0) = Threw err ->
        fst (request symbol period t0) = Threw err
        \/ err = Error "Unexpected API response"
        \/ exists msg, err = TypeError msg)
  /\ snd (api symbol period startTime endTime t0) = snd (request symbol period t0).
Proof.
  unfold fetchDataFromAPI. cbv zeta. cbn [fst snd].
  split; [|split; [|split]]; [| | |reflexivity].
  - intros err ->. reflexivity.
  - intros response_data series -> Hs Ht. simpl. unfold process_response.
    rewrite Hs. simpl. now rewrite Ht.
  - intros err. destruct (fst (request symbol period t0)) as [response_data|e0];
      simpl; [|intros [= <-]; now left].
    unfold process_response.
    destruct (read_property response_data "Time Series (1min)") as [series|e1] eqn:Es;
      simpl.
    + destruct (truthy series); [|intros [= <-]; right; now left].
      destruct (Object_entries series) as [entries|e2] eqn:Ee; simpl.
      * destruct (map_points parseFloat entries) as [points|e3] eqn:Ep; simpl;
          [discriminate|].
        intros [= <-]. right. right.
        now destruct (map_points_rejection entries e3 Ep) as [_ Hmsg].
      * intros [= <-]. right. right.
        destruct series; simpl in Ee; try discriminate; injection Ee as <-; eauto.
    + intros [= <-]. right. right.
      destruct response_data; simpl in Es; try discriminate;
        injection Es as <-; eauto.
Qed.

(** What the handler does with a request that has its four parameters,
    given what its call of [get] did. *)
Lemma timeseries_eq s p a b w v c :
  nonempty (Some s) = true -> nonempty (Some p) = true ->
  nonempty (Some a) = true -> nonempty (Some b) = true ->
  get server_cache (cacheKey s p a b) w = (Returned v, with_cache c w) ->
  route (mkQuery (Some s) (Some p) (Some a) (Some b)) w =
    if truthy v then
      (Returned (mkReply (mkResponse 200 (data_body s p v)) None),
       with_console (console w ++ ["Cache hit"]) (with_cache c w))
    else
      let w1 := with_upstream (upstream w ++ [cacheKey s p a b])
                  (with_console (console w ++ ["Cache miss"]) (with_cache c w)) in
      let t := snd (api s p a b (now w)) in
      match fst (api s p a b (now w)) with
      | Returned d =>
          (Returned (mkReply (mkResponse 200 (data_body s p d)) None),
           with_cache (JsMap.set (cacheKey s p a b) (mkEntry d t) c) (with_now t w1))
      | Threw err =>
          (Returned (mkReply
                       (mkResponse 500 (error_body "Failed to fetch timeseries data"))
                       (Some err)),
           with_now t w1)
      end.
Proof.
  intros Hs Hp Ha Hb Hget. unfold timeseries. cbn [q_symbol q_period q_start q_end].
  rewrite Hs, Hp, Ha, Hb. cbn [negb orb]. cbv zeta.
  unfold try_catch. rewrite bind_run, Hget.
  destruct (truthy v); [reflexivity|].
  unfold set, console_log1. run.
  now destruct (and_then _ _).
Qed.

Lemma timeseries_guard q w :
  nonempty (q_symbol q) && nonempty (q_period q)
  && nonempty (q_start q) && nonempty (q_end q) = false ->
  route q w
  = (Returned (mkReply (mkResponse 400 (error_body "Missing required query parameters"))
                 None), w).
Proof.
  unfold timeseries.
  destruct (nonempty (q_symbol q)), (nonempty (q_period q)),
    (nonempty (q_start q)), (nonempty (q_end q)); simpl;
    try reflexivity; discriminate.
Qed.

Lemma nonempty_some q :
  nonempty q = true -> exists s, q = Some s /\ nonempty (Some s) = true.
Proof. destruct q as [s|]; [|discriminate]. intros H. now exists s. Qed.
End ServerFacts.

Lemma fetchDataFromAPI_fulfils_with_array_witness :
  let axios : string -> list (string * string) -> Loader := fun _ _ t =>
    (Returned (JObject [("Time Series (1min)",
        JObject [("2024-01-02 16:00:00",
                  JObject [("1. open", JStr "100"); ("2. high", JStr "101");
                           ("3. low", JStr "99"); ("4. close", JStr "100")])])]),
     t + 120) in
  let parse : jsval -> jsval := fun v =>
    match v with
    | JStr "100" => JNum 100 | JStr "101" => JNum 101 | JStr "99" => JNum 99
    | _ => JNaN
    end in
  truthy (JArray [JObject [("time", JStr "2024-01-02 16:00:00");
                           ("open", JNum 100); ("high", JNum 101);
                           ("low", JNum 99); ("close", JNum 100)]]) = true.
Proof.
  cbv zeta.
  refine (proj1 (fetchDataFromAPI_fulfils_with_array
    (fun _ _ t =>
       (Returned (JObject [("Time Series (1min)",
          JObject [("2024-01-02 16:00:00",
                    JObject [("1. open", JStr "100"); ("2. high", JStr "101");
                             ("3. low", JStr "99"); ("4. close", JStr "100")])])]),
        t + 120))
    (fun v =>
       match v with
       | JStr "100" => JNum 100 | JStr "101" => JNum 101 | JStr "99" => JNum 99
       | _ => JNaN
       end)
    "IBM" "1min" "t0" "t1" 0 _ _)).
  reflexivity.
Defined.

Lemma fetchDataFromAPI_rejections_witness :
  let limited : string -> list (string * string) -> Loader := fun _ _ t =>
    (Returned (JObject [("Note", JStr "API call frequency exceeded")]), t + 120) in
  fst (Server.fetchDataFromAPI limited (fun _ => JNaN) "IBM" "1min" "t0" "t1" 0)
  = Threw (Error "Unexpected API response").
Proof.
  cbv zeta.
  refine (proj1 (proj2 (fetchDataFromAPI_rejections
    (fun _ _ t =>
       (Returned (JObject [("Note", JStr "API call frequency exceeded")]), t + 120))
    (fun _ => JNaN) "IBM" "1min" "t0" "t1" 0))
    (JObject [("Note", JStr "API call frequency exceeded")]) JUndefined _ _ _);
    reflexivity.
Defined.

Section RouteFacts.
Import Server.
Variable axios_get : string -> list (string * string) -> Loader.
Variable parseFloat : jsval -> jsval.

Local Abbreviation api := (fetchDataFromAPI axios_get parseFloat).
Local Abbreviation route := (timeseries axios_get parseFloat).
Local Abbreviation bad_request :=
  (mkReply (mkResponse 400 (error_body "Missing required query parameters")) None).
Local Abbreviation failed err :=
  (mkReply (mkResponse 500 (error_body "Failed to fetch timeseries data")) (Some err)).
Local Abbreviation served s p d :=
  (mkReply (mkResponse 200 (data_body s p d)) None).

(** X10. A request that lacks one of the four parameters, or gives an empty
    one, is answered with status 400 and leaves the world as it was: the
    Map is not read, nothing is fetched and nothing is printed. *)
Theorem timeseries_bad_request (q : Query) (w : World) :
  nonempty (q_symbol q) && nonempty (q_period q)
  && nonempty (q_start q) && nonempty (q_end q) = false ->
  route q w = (Returned bad_request, w).
Proof. apply timeseries_guard. Qed.

(** X11. The handler always answers and never throws.  Its answer is one
    of three: 200 with a data body and nothing reported, the 400 answer for
    missing parameters, or 500 with the fixed message as body, whatever the
    error was, the error itself going to [console.error]. *)
Theorem timeseries_always_answers (q : Query) (w : World) :
  exists reply w',
    route q w = (Returned reply, w')
    /\ ((exists s p d, reply = served s p d)
        \/ reply = bad_request
        \/ (exists err, reply = failed err)).
Proof.
  destruct (nonempty (q_symbol q) && nonempty (q_period q)
            && nonempty (q_start q) && nonempty (q_end q)) eqn:G.
  - apply andb_true_iff in G as [G Hb]. apply andb_true_iff in G as [G Ha].
    apply andb_true_iff in G as [Hs Hp].
    destruct q as [qs qp qa qb]. cbn [q_symbol q_period q_start q_end] in *.
    destruct (nonempty_some _ Hs) as [s [-> Hs']].
    destruct (nonempty_some _ Hp) as [p [-> Hp']].
    destruct (nonempty_some _ Ha) as [a [-> Ha']].
    destruct (nonempty_some _ Hb) as [b [-> Hb']].
    destruct (get_cases server_cache (cacheKey s p a b) w) as [v [c [Hget _]]].
    rewrite (timeseries_eq axios_get parseFloat s p a b w v c Hs' Hp' Ha' Hb' Hget).
    destruct (truthy v); cbv zeta.
    + eexists _, _. split; [reflexivity|]. left. now exists s, p, v.
    + destruct (fst (api s p a b (now w))) as [d|err]; eexists _, _;
        (split; [reflexivity|]).
      * left. now exists s, p, d.
      * right. right. now exists err.
  - eexists _, _. split; [now apply timeseries_guard|]. right. now left.
Qed.

(** X12. For a request with its four parameters, the handler is
    [fetchData] on the cache key with [fetchDataFromAPI] as loader: both
    leave the same Map, the same list of upstream fetches and the same
    clock; the handler answers 200 with the payload [fetchData] returns,
    and 500, reporting the error, when [fetchData] throws. *)
Theorem timeseries_as_fetchData (s p a b : string) (w : World) :
  nonempty (Some s) = true -> nonempty (Some p) = true ->
  nonempty (Some a) = true -> nonempty (Some b) = true ->
  let h := route (mkQuery (Some s) (Some p) (Some a) (Some b)) w in
  let r := fetchData server_cache (cacheKey s p a b) (api s p a b) w in
  cache (snd h) = cache (snd r)
  /\ upstream (snd h) = upstream (snd r)
  /\ now (snd h) = now (snd r)
  /\ (forall d, fst r = Returned d -> fst h = Returned (served s p d))
  /\ (forall err, fst r = Threw err -> fst h = Returned (failed err)).
Proof.
  intros Hs Hp Ha Hb. cbv zeta.
  destruct (get_cases server_cache (cacheKey s p a b) w) as [v [c [Hget _]]].
  rewrite (timeseries_eq axios_get parseFloat s p a b w v c Hs Hp Ha Hb Hget).
  rewrite (fetchData_eq server_cache (cacheKey s p a b) (api s p a b) w v c Hget).
  destruct (truthy v); cbv zeta.
  - cbn. repeat split; intros; congruence.
  - destruct (fst (api s p a b (now w))); cbn; repeat split; intros; congruence.
Qed.

(** X13. A failed fetch is not cached: when the key has no entry or an
    expired one and [fetchDataFromAPI] is rejected, the handler answers 500
    and reports that error, the key has no entry afterwards, and the entries
    of the other keys are untouched. *)
Theorem timeseries_failure_caches_nothing (s p a b : string) (w : World) (err : jserror) :
  nonempty (Some s) = true -> nonempty (Some p) = true ->
  nonempty (Some a) = true -> nonempty (Some b) = true ->
  absent_or_expired server_cache (cacheKey s p a b) w ->
  fst (api s p a b (now w)) = Threw err ->
  let h := route (mkQuery (Some s) (Some p) (Some a) (Some b)) w in
  fst h = Returned (failed err)
  /\ JsMap.get (cacheKey s p a b) (cache (snd h)) = None
  /\ (forall k', k' <> cacheKey s p a b ->
        JsMap.get k' (cache (snd h)) = JsMap.get k' (cache w)).
Proof.
  intros Hs Hp Ha Hb Hmiss Hfail. cbv zeta.
  rewrite (timeseries_eq axios_get parseFloat s p a b w JNull _ Hs Hp Ha Hb
             (get_absent_or_expired server_cache _ w Hmiss)).
  cbn [truthy]. cbv zeta. rewrite Hfail. cbn.
  repeat split.
  - apply JsMapFacts.get_delete_same.
  - intros k' Hne. now apply JsMapFacts.get_delete_other.
Qed.

(** X14. A request answered from upstream is answered from the cache when
    repeated: if the key had no entry or an expired one and
    [fetchDataFromAPI] was fulfilled at clock reading [t1], the same request
    at any reading within 600000 ms of [t1] gets the same 200 answer, and
    the two requests together started one upstream fetch.  No assumption on
    the payload is needed, since it is an array. *)
Theorem timeseries_repeat_is_served_from_cache
  (s p a b : string) (w : World) (d : jsval) (t1 t2 : Z) :
  nonempty (Some s) = true -> nonempty (Some p) = true ->
  nonempty (Some a) = true -> nonempty (Some b) = true ->
  absent_or_expired server_cache (cacheKey s p a b) w ->
  api s p a b (now w) = (Returned d, t1) ->
  t2 - t1 <= 600000 ->
  let q := mkQuery (Some s) (Some p) (Some a) (Some b) in
  let h1 := route q w in
  let h2 := at_time t2 (route q) (snd h1) in
  fst h1 = Returned (served s p d)
  /\ fst h2 = Returned (served s p d)
  /\ upstream (snd h2) = upstream w ++ [cacheKey s p a b]
  /\ cache (snd h2) = cache (snd h1).
Proof.
  intros Hs Hp Ha Hb Hmiss Hapi Ht. cbv zeta.
  assert (Hd : truthy d = true).
  { apply (fetchDataFromAPI_payload_truthy axios_get parseFloat s p a b (now w)).
    now rewrite Hapi. }
  rewrite (timeseries_eq axios_get parseFloat s p a b w JNull _ Hs Hp Ha Hb
             (get_absent_or_expired server_cache _ w Hmiss)).
  cbn [truthy]. cbv zeta. rewrite Hapi. cbn [fst snd].
  match goal with |- context [at_time t2 _ ?w0] => set (w1 := w0) end.
  assert (H1 : JsMap.get (cacheKey s p a b) (cache (with_now t2 w1))
               = Some (mkEntry d t1)) by apply JsMapFacts.get_set_same.
  assert (Hget : get server_cache (cacheKey s p a b) (with_now t2 w1)
                 = (Returned d, with_cache (cache (with_now t2 w1)) (with_now t2 w1))).
  { rewrite (get_fresh server_cache _ (mkEntry d t1) (with_now t2 w1) H1)
      by (unfold fresh; simpl; lia).
    reflexivity. }
  unfold at_time.
  rewrite (timeseries_eq axios_get parseFloat s p a b (with_now t2 w1) d _
             Hs Hp Ha Hb Hget).
  rewrite Hd. cbn. repeat split.
Qed.
End RouteFacts.

Lemma timeseries_bad_request_witness :
  fst (Server.timeseries (fun _ _ t => (Returned JNull, t)) (fun _ => JNaN)
         (Server.mkQuery (Some "IBM") (Some "") (Some "t0") None)
         (initial_world 0))
  = Returned (Server.mkReply
      (Server.mkResponse 400 (Server.error_body "Missing required query parameters"))
      None).
Proof.
  rewrite (timeseries_bad_request (fun _ _ t => (Returned JNull, t)) (fun _ => JNaN)
             (Server.mkQuery (Some "IBM") (Some "") (Some "t0") None)
             (initial_world 0) eq_refl).
  reflexivity.
Defined.

Lemma fetchData_touches_only_its_key_witness :
  let cache0 := constructor None None in
  let loader : Loader := fun t => (Returned (JStr "D2"), t + 250) in
  let w := mkWorld [("k", mkEntry (JStr "D1") 0); ("other", mkEntry (JStr "D0") 0)]
             700000 [] [] in
  JsMap.get "other" (cache (snd (fetchData cache0 "k" loader w)))
  = Some (mkEntry (JStr "D0") 0).
Proof.
  cbv zeta.
  rewrite (proj1 (fetchData_touches_only_its_key (constructor None None) "k"
                    (fun t => (Returned (JStr "D2"), t + 250))
                    (mkWorld [("k", mkEntry (JStr "D1") 0);
                              ("other", mkEntry (JStr "D0") 0)] 700000 [] []))
             "other").
  - reflexivity.
  - discriminate.
Defined.

Lemma timeseries_as_fetchData_witness :
  let axios : string -> list (string * string) -> Loader := fun _ _ t =>
    (Returned (JObject [("Time Series (1min)", JObject [])]), t + 120) in
  fst (Server.timeseries axios (fun _ => JNaN)
         (Server.mkQuery (Some "IBM") (Some "1min") (Some "t0") (Some "t1"))
         (initial_world 0))
  = Returned (Server.mkReply
      (Server.mkResponse 200 (Server.data_body "IBM" "1min" (JArray []))) None).
Proof.
  cbv zeta.
  pose proof (timeseries_as_fetchData
    (fun _ _ t => (Returned (JObject [("Time Series (1min)", JObject [])]), t + 120))
    (fun _ => JNaN) "IBM" "1min" "t0" "t1" (initial_world 0)
    eq_refl eq_refl eq_refl eq_refl) as H.
  cbv zeta in H. destruct H as [_ [_ [_ [H _]]]].
  apply (H (JArray [])). reflexivity.
Defined.

Lemma timeseries_failure_caches_nothing_witness :
  let axios : string -> list (string * string) -> Loader := fun _ _ t =>
    (Threw (Error "Network Error"), t + 120) in
  let h := Server.timeseries axios (fun _ => JNaN)
             (Server.mkQuery (Some "IBM") (Some "1min") (Some "t0") (Some "t1"))
             (initial_world 0) in
  fst h = Returned (Server.mkReply
            (Server.mkResponse 500 (Server.error_body "Failed to fetch timeseries data"))
            (Some (Error "Network Error")))
  /\ JsMap.get "IBM-1min-t0-t1" (cache (snd h)) = None.
Proof.
  cbv zeta.
  pose proof (timeseries_failure_caches_nothing
    (fun _ _ t => (Threw (Error "Network Error"), t + 120))
    (fun _ => JNaN) "IBM" "1min" "t0" "t1" (initial_world 0) (Error "Network Error")
    eq_refl eq_refl eq_refl eq_refl) as H.
  cbv zeta in H. destruct H as [H1 [H2 _]].
  - left. reflexivity.
  - reflexivity.
  - split; [exact H1 | exact H2].
Defined.

Lemma timeseries_repeat_is_served_from_cache_witness :
  let axios : string -> list (string * string) -> Loader := fun _ _ t =>
    (Returned (JObject [("Time Series (1min)", JObject [])]), t + 120) in
  let q := Server.mkQuery (Some "IBM") (Some "1min") (Some "t0") (Some "t1") in
  let h1 := Server.timeseries axios (fun _ => JNaN) q (initial_world 0) in
  let h2 := at_time 600120 (Server.timeseries axios (fun _ => JNaN) q) (snd h1) in
  fst h2 = Returned (Server.mkReply
             (Server.mkResponse 200 (Server.data_body "IBM" "1min" (JArray []))) None)
  /\ upstream (snd h2) = ["IBM-1min-t0-t1"].
Proof.
  cbv zeta.
  pose proof (timeseries_repeat_is_served_from_cache
    (fun _ _ t => (Returned (JObject [("Time Series (1min)", JObject [])]), t + 120))
    (fun _ => JNaN) "IBM" "1min" "t0" "t1" (initial_world 0) (JArray []) 120 600120
    eq_refl eq_refl eq_refl eq_refl) as H.
  cbv zeta in H. destruct H as [_ [H2 [H3 _]]].
  - left. reflexivity.
  - reflexivity.
  - lia.
  - split; [exact H2 | exact H3].
Defined.

(** ** Distinct keys *)

Section DistinctKeys.
Import Server.

Lemma NoDup_after_get this k w v c :
  NoDup (JsMap.keys (cache w)) ->
  get this k w = (Returned v, with_cache c w) ->
  NoDup (JsMap.keys c).
Proof.
  intros Hnd Hget.
  destruct (get_cases this k w) as [v' [c' [Hget' Hc]]].
  rewrite Hget in Hget'.
  apply (f_equal (fun r => cache (snd r))) in Hget'. simpl in Hget'. subst c'.
  destruct Hc as [-> | ->]; [exact Hnd | now apply NoDup_keys_delete].
Qed.

(** X15. No operation ever puts two entries under one key: if the keys of
    the Map are distinct, they still are after [set], after [get], after
    [fetchData] whatever its loader does, after a refresh pass, and after
    the handler of the route has served a request. *)
Theorem keys_stay_distinct (this : TimeSeriesCache) (w : World) :
  NoDup (JsMap.keys (cache w)) ->
  (forall k d, NoDup (JsMap.keys (cache (snd (set k d w)))))
  /\ (forall k, NoDup (JsMap.keys (cache (snd (get this k w)))))
  /\ (forall k loader, NoDup (JsMap.keys (cache (snd (fetchData this k loader w)))))
  /\ NoDup (JsMap.keys (cache (snd (refresh_pass this w))))
  /\ (forall axios_get parseFloat q,
        NoDup (JsMap.keys (cache (snd (timeseries axios_get parseFloat q w))))).
Proof.
  intros Hnd. split; [|split; [|split; [|split]]].
  - intros k d. rewrite set_eq. simpl. now apply NoDup_keys_set.
  - intros k. destruct (get_cases this k w) as [v [c [Hget _]]].
    pose proof (NoDup_after_get this k w v c Hnd Hget) as H.
    now rewrite Hget.
  - intros k loader. destruct (get_cases this k w) as [v [c [Hget _]]].
    pose proof (NoDup_after_get this k w v c Hnd Hget) as H.
    rewrite (fetchData_eq this k loader w v c Hget).
    destruct (truthy v); cbv zeta; [exact H|].
    destruct (fst (loader (now w))); simpl; [now apply NoDup_keys_set | exact H].
  - now rewrite refresh_pass_keeps_keys_eq.
  - intros axios_get parseFloat q.
    destruct (nonempty (q_symbol q) && nonempty (q_period q)
              && nonempty (q_start q) && nonempty (q_end q)) eqn:G.
    + apply andb_true_iff in G as [G Hb]. apply andb_true_iff in G as [G Ha].
      apply andb_true_iff in G as [Hs Hp].
      destruct q as [qs qp qa qb]. cbn [q_symbol q_period q_start q_end] in *.
      destruct (nonempty_some _ Hs) as [s [-> Hs']].
      destruct (nonempty_some _ Hp) as [p [-> Hp']].
      destruct (nonempty_some _ Ha) as [a [-> Ha']].
      destruct (nonempty_some _ Hb) as [b [-> Hb']].
      destruct (get_cases server_cache (cacheKey s p a b) w) as [v [c [Hget _]]].
      pose proof (NoDup_after_get server_cache _ w v c Hnd Hget) as H.
      rewrite (timeseries_eq axios_get parseFloat s p a b w v c Hs' Hp' Ha' Hb' Hget).
      destruct (truthy v); cbv zeta; [exact H|].
      destruct (fst (fetchDataFromAPI axios_get parseFloat s p a b (now w)));
        simpl; [now apply NoDup_keys_set | exact H].
    + now rewrite (timeseries_guard axios_get parseFloat q w G).
Qed.
End DistinctKeys.

Lemma keys_stay_distinct_witness :
  NoDup (JsMap.keys (cache (snd (set "k" (JStr "D2")
           (mkWorld [("k", mkEntry (JStr "D1") 0)] 10 [] []))))).
Proof.
  apply (proj1 (keys_stay_distinct (constructor None None)
                  (mkWorld [("k", mkEntry (JStr "D1") 0)] 10 [] [])
                  ltac:(repeat constructor; simpl; tauto))).
Defined.


(** ** A failing refresh and the process *)

Lemma timer_outcome_rejected (this : TimeSeriesCache) (w : World) (err : jserror) :
  fst (refresh_pass this w) = Threw err ->
  timer_outcome this (now w) w = Exited err.
Proof.
  intros H. unfold timer_outcome, startAutoRefresh. cbn [callback].
  replace (with_now (now w) w) with w by now destruct w.
  destruct (refresh_pass this w) as [[u|e0] w']; simpl in H; congruence.
Qed.

(** C3, as the code has it.  The callback has no [try]: when a refresh pass
    reaches a key whose entry is within its TTL and the fetch for that key
    fails, the error leaves the pass.  Nothing is printed after the line
    announcing the refresh, so the failure is not reported; the keys after
    the failed one are not visited, their entries staying as they were; and
    the rejected promise of the callback, which nothing handles, ends the
    process. *)
Theorem refresh_failure_is_not_contained
  (this : TimeSeriesCache) (w w1 : World) (pre post : list (string * Entry))
  (k : string) (e : Entry) (err : jserror) :
  JsMap.entries (cache w) = pre ++ (k, e) :: post ->
  ~ In k (JsMap.keys pre) ->
  refresh_entries this pre w = (Returned tt, w1) ->
  fresh this (now w1) e ->
  fst (call_fetchFunction this k
         (with_console (console w1 ++ [log_line "Refreshing cache for" k]) w1))
  = Threw err ->
  fst (refresh_pass this w) = Threw err
  /\ timer_outcome this (now w) w = Exited err
  /\ console (snd (refresh_pass this w))
     = console w1 ++ [log_line "Refreshing cache for" k]
  /\ (forall k', ~ In k' (JsMap.keys pre) ->
        JsMap.get k' (cache (snd (refresh_pass this w))) = JsMap.get k' (cache w)).
Proof.
  intros Hsplit Hfirst Hpre Hfresh Hfail.
  destruct (refresh_pass_stops_at_failure this w w1 pre post k e err
              Hsplit Hfirst Hpre Hfresh Hfail) as [H1 [_ [H3 [H4 _]]]].
  split; [exact H1|]. split; [now apply timer_outcome_rejected|].
  split; [exact H4 | exact H3].
Qed.

Lemma refresh_failure_is_not_contained_witness :
  let cache0 := constructor None None in
  let old := mkEntry (JStr "D1") 0 in
  let w := mkWorld [("Y", old); ("Z", old)] 60000 [] [] in
  fst (refresh_pass cache0 w) = Threw (TypeError "this.fetchFunction is not a function")
  /\ timer_outcome cache0 60000 w
     = Exited (TypeError "this.fetchFunction is not a function")
  /\ console (snd (refresh_pass cache0 w)) = ["Refreshing cache for Y"]
  /\ JsMap.get "Z" (cache (snd (refresh_pass cache0 w))) = Some old.
Proof.
  cbv zeta.
  destruct (refresh_failure_is_not_contained (constructor None None)
              (mkWorld [("Y", mkEntry (JStr "D1") 0); ("Z", mkEntry (JStr "D1") 0)]
                 60000 [] [])
              (mkWorld [("Y", mkEntry (JStr "D1") 0); ("Z", mkEntry (JStr "D1") 0)]
                 60000 [] [])
              [] [("Z", mkEntry (JStr "D1") 0)] "Y" (mkEntry (JStr "D1") 0)
              (TypeError "this.fetchFunction is not a function"))
    as [H1 [H2 [H3 H4]]].
  - reflexivity.
  - simpl. tauto.
  - reflexivity.
  - unfold fresh. simpl. lia.
  - reflexivity.
  - split; [exact H1|]. split; [exact H2|]. split; [exact H3|].
    apply (H4 "Z"). simpl. tauto.
Defined.

(** C9, as the code has it.  On a cache as the constructor builds it, a
    refresh pass that finds an entry within its TTL fails with a TypeError
    raised by the pass itself: no fetcher exists on the object, no upstream
    fetch was started, and the error, which nothing handles, ends the
    process. *)
Theorem refresh_pass_raises_its_own_error (ttl interval : option Z) (w : World) :
  let this := constructor ttl interval in
  Exists (fun p => fresh this (now w) (snd p)) (cache w) ->
  fetchFunction this = None
  /\ fst (refresh_pass this w) = Threw (TypeError "this.fetchFunction is not a function")
  /\ upstream (snd (refresh_pass this w)) = upstream w
  /\ timer_outcome this (now w) w
     = Exited (TypeError "this.fetchFunction is not a function").
Proof.
  cbv zeta. intros Hex.
  assert (Hthrow : fst (refresh_pass (constructor ttl interval) w)
                   = Threw (TypeError "this.fetchFunction is not a function")).
  { unfold refresh_pass, cache_entries. rewrite bind_run.
    now apply (refresh_entries_undefined_rejects (constructor ttl interval)
                 (cache w) w eq_refl Hex). }
  split; [reflexivity|]. split; [exact Hthrow|]. split.
  - unfold refresh_pass, cache_entries. rewrite bind_run.
    now apply (refresh_entries_undefined (constructor ttl interval)
                 (JsMap.entries (cache w)) w eq_refl).
  - now apply timer_outcome_rejected.
Qed.

Lemma refresh_pass_raises_its_own_error_witness :
  let cache0 := constructor None None in
  let w := snd (at_time 0 (set "k" (JStr "D1")) (initial_world 0)) in
  fst (at_time 60000 (refresh_pass cache0) w)
  = Threw (TypeError "this.fetchFunction is not a function")
  /\ upstream (snd (at_time 60000 (refresh_pass cache0) w)) = [].
Proof.
  cbv zeta.
  destruct (refresh_pass_raises_its_own_error None None
              (with_now 60000 (snd (at_time 0 (set "k" (JStr "D1")) (initial_world 0)))))
    as [_ [H1 [H2 _]]].
  - apply Exists_cons_hd. unfold fresh. simpl. lia.
  - split; [exact H1 | exact H2].
Defined.
